(** * prettier-plugin-detect-throw: the throw annotator of [index.ts]

    A shallow embedding of [isAllowedErrorClass] and
    [processThrowStatements] (option decoding, file filter, the [traverse]
    walk with its [hasComment] check) and the properties of the
    specification that were settled against it. *)

From Stdlib Require Import ZArith String List Bool Lia Arith DecimalString.
From Stdlib Require Import Sorting.Sorted Sorting.Permutation.
Import ListNotations.
Local Open Scope string_scope.
Local Open Scope Z_scope.

Set Implicit Arguments.

(** ** Exceptions

    [JSON.parse] raises a [SyntaxError]; applying [in], [.includes] or
    [.join] to a value that does not support it raises a [TypeError], and
    so does the glob matcher on a pattern or a path it does not accept.
    Nothing in [index.ts] catches either. *)

Inductive Error : Type := SyntaxError | TypeError.

Inductive Result (A : Type) : Type :=
| Ok (a : A)
| Throw (e : Error).

Arguments Ok {A} a.
Arguments Throw {A} e.

Definition bind {A B : Type} (r : Result A) (k : A -> Result B) : Result B :=
  match r with
  | Ok a => k a
  | Throw e => Throw e
  end.

Notation "x <- r ;; k" := (bind r (fun x => k))
  (at level 61, r at next level, right associativity).

(** ** The program tree

    A node is a JavaScript object with a string [type].  The embedding
    keeps what the two walks of the program read:
    - [loc] and [range], copied into every synthesized comment;
    - the [comments] property, absent ([None]) until something assigns it;
    - [attrs], the properties holding a primitive value;
    - [children], the node-valued slots in property enumeration order: a
      property holding a node contributes one [Field] slot, a property
      holding an array contributes one [Elem] slot per node of the array,
      in array order.
    Primitive array items and [null] holes are skipped by both walks and
    are left out; an object without a string [type] below a node ([loc],
    a regular expression literal's [regex]) holds no node and is left out
    as well. *)

Record Position : Type := mkPosition { line : Z; column : Z }.

Record SourceLocation : Type :=
  mkLoc { loc_start : Position; loc_end : Position }.

Inductive CommentType : Type := Block | Line.

(** A comment; [c_fields] holds the [leading] and [trailing] properties
    that the attachment adds to its copy of the comment. *)
Record Comment : Type := mkComment {
  c_type : CommentType;
  c_value : string;
  c_loc : SourceLocation;
  c_range : Z * Z;
  c_fields : option (bool * bool)
}.

Inductive Prim : Type :=
| PUndefined
| PNull
| PBool (b : bool)
| PNum (z : Z)
| PStr (s : string).

Inductive Slot : Type :=
| Field (key : string)
| Elem (key : string) (index : nat).

#[warnings="-register-all"]
Inductive Node : Type :=
| MkNode (type : string) (loc : SourceLocation) (range : Z * Z)
         (comments : option (list Comment))
         (attrs : list (string * Prim))
         (children : list (Slot * Node)).

Definition type (n : Node) : string :=
  match n with MkNode t _ _ _ _ _ => t end.
Definition loc (n : Node) : SourceLocation :=
  match n with MkNode _ l _ _ _ _ => l end.
Definition range (n : Node) : Z * Z :=
  match n with MkNode _ _ r _ _ _ => r end.
Definition comments (n : Node) : option (list Comment) :=
  match n with MkNode _ _ _ c _ _ => c end.
Definition attrs (n : Node) : list (string * Prim) :=
  match n with MkNode _ _ _ _ a _ => a end.
Definition children (n : Node) : list (Slot * Node) :=
  match n with MkNode _ _ _ _ _ k => k end.

Definition slotKey (s : Slot) : string :=
  match s with Field k => k | Elem k _ => k end.

(** JavaScript truthiness of a primitive. *)
Definition truthy (p : Prim) : bool :=
  match p with
  | PUndefined | PNull => false
  | PBool b => b
  | PNum z => negb (z =? 0)
  | PStr s => negb (s =? "")%string
  end.

Fixpoint lookupAttr (k : string) (l : list (string * Prim)) : option Prim :=
  match l with
  | [] => None
  | (k', p) :: l' => if (k =? k')%string then Some p else lookupAttr k l'
  end.

(** The node held directly (not inside an array) by property [k]. *)
Fixpoint lookupField (k : string) (l : list (Slot * Node)) : option Node :=
  match l with
  | [] => None
  | (Field k', n) :: l' =>
      if (k =? k')%string then Some n else lookupField k l'
  | (Elem _ _, _) :: l' => lookupField k l'
  end.

(** [key in node] for the properties the embedding keeps. *)
Definition hasKey (k : string) (n : Node) : bool :=
  existsb (fun a => (k =? fst a)%string) (attrs n)
  || existsb (fun c => (k =? slotKey (fst c))%string) (children n).

(** ** Values of options

    What an option of the caller's object holds when it is neither missing
    nor [undefined], and what [JSON.parse] returns: [null], a boolean, a
    number, a string, an array or a plain object of such values.  A number
    is kept as the text that [String] gives for it; an object lists its
    properties in enumeration order, each key once.  The objects and
    arrays of such a value are not objects of the program tree. *)

#[warnings="-register-all"]
Inductive Json : Type :=
| JNull
| JBool (b : bool)
| JNumber (text : string)
| JString (s : string)
| JArray (items : list Json)
| JObject (members : list (string * Json)).

(** An array of strings. *)
Definition strings (l : list string) : Json := JArray (map JString l).

(** JavaScript truthiness. *)
Definition truthyJson (j : Json) : bool :=
  match j with
  | JNull => false
  | JBool b => b
  | JNumber t => negb ((t =? "0") || (t =? "NaN"))%string
  | JString s => negb (s =? "")%string
  | JArray _ | JObject _ => true
  end.

Fixpoint member (k : string) (m : list (string * Json)) : option Json :=
  match m with
  | [] => None
  | (k', j) :: m' => if (k =? k')%string then Some j else member k m'
  end.

(** [String(z)] for an integer that is printed with all its digits. *)
Definition zText (z : Z) : string := NilZero.string_of_int (Z.to_int z).

Definition primText (p : Prim) : string :=
  match p with
  | PUndefined => "undefined"
  | PNull => "null"
  | PBool b => if b then "true" else "false"
  | PNum z => zText z
  | PStr s => s
  end.

(** [String(j)]: an array joins its items with a comma, [null] items
    giving the empty text; a plain object gives "[object Object]", and
    raises when an own [toString] property, which is not a function, hides
    the inherited one. *)
Fixpoint toText (j : Json) : Result string :=
  match j with
  | JNull => Ok "null"
  | JBool b => Ok (if b then "true" else "false")
  | JNumber t => Ok t
  | JString s => Ok s
  | JArray items =>
      parts <- (fix each (l : list Json) : Result (list string) :=
                  match l with
                  | [] => Ok []
                  | x :: l' =>
                      part <- match x with
                              | JNull => Ok ""
                              | _ => toText x
                              end ;;
                      rest <- each l' ;;
                      Ok (part :: rest)
                  end) items ;;
      Ok (String.concat "," parts)
  | JObject members =>
      match member "toString" members with
      | Some _ => Throw TypeError
      | None => Ok "[object Object]"
      end
  end.

(** The texts that [Array.prototype.join] puts between the separators. *)
Fixpoint joinParts (items : list Json) : Result (list string) :=
  match items with
  | [] => Ok []
  | x :: items' =>
      part <- match x with
              | JNull => Ok ""
              | _ => toText x
              end ;;
      rest <- joinParts items' ;;
      Ok (part :: rest)
  end.

(** [t.includes(s)] on strings. *)
Fixpoint isSubstring (s t : string) : bool :=
  String.prefix s t
  || match t with
     | EmptyString => false
     | String _ t' => isSubstring s t'
     end.

(** ** [isAllowedErrorClass] *)

(** The value of [arg.callee.name] that is looked up: a primitive, or an
    object, of which only the outcome of [String(name)] is kept. *)
Inductive Name : Type :=
| NPrim (p : Prim)
| NObject (text : Result string).

Definition nameText (name : Name) : Result string :=
  match name with
  | NPrim p => Ok (primText p)
  | NObject text => text
  end.

(** The comparison of [Array.prototype.includes]; an object of the tree is
    identical to no item of the list. *)
Definition sameValueZero (name : Name) (j : Json) : bool :=
  match name, j with
  | NPrim PNull, JNull => true
  | NPrim (PBool a), JBool b => Bool.eqb a b
  | NPrim (PNum z), JNumber t => (zText z =? t)%string
  | NPrim (PStr s), JString t => (s =? t)%string
  | _, _ => false
  end.

(** [allowedClasses.includes(name)]; [None] is an [allowedClasses] that is
    [undefined].  An array compares its items with [name]; a string
    converts [name] to text and looks for it as a substring; no other
    value has a callable [includes]. *)
Definition includes (allowedClasses : option Json) (name : Name)
  : Result bool :=
  match allowedClasses with
  | Some (JArray items) => Ok (existsb (sameValueZero name) items)
  | Some (JString t) => text <- nameText name ;; Ok (isSubstring text t)
  | _ => Throw TypeError
  end.

(** [String(v)] for an object [v] of the tree: a node, or an array, which
    is taken to hold the nodes of its slots. *)
Definition nodeText (n : Node) : Result string :=
  if hasKey "toString" n then Throw TypeError else Ok "[object Object]".

Fixpoint nodeTexts (l : list (Slot * Node)) : Result (list string) :=
  match l with
  | [] => Ok []
  | (_, n) :: l' =>
      part <- nodeText n ;; rest <- nodeTexts l' ;; Ok (part :: rest)
  end.

(** The value of the property [k] of [node] when it is an object. *)
Definition objectText (k : string) (node : Node) : Result string :=
  match lookupField k (children node) with
  | Some n => nodeText n
  | None =>
      parts <- nodeTexts
                 (filter (fun sc => (slotKey (fst sc) =? k)%string)
                    (children node)) ;;
      Ok (String.concat "," parts)
  end.

(** [throwExpr.argument] is a node exactly when the property holds one
    directly; a primitive or an array there has no [type] equal to
    "NewExpression" or "Identifier", and a missing or falsy argument returns
    [false] at once.  In the conjunction
    [arg.callee && "name" in arg.callee && arg.callee.name] the operator
    [in] raises a [TypeError] on a truthy primitive [callee]; a truthy
    [name], string or not, is handed to [includes]. *)
Definition isAllowedErrorClass (throwExpr : Node)
    (allowedClasses : option Json) : Result bool :=
  match lookupField "argument" (children throwExpr) with
  | None => Ok false
  | Some arg =>
      if (type arg =? "NewExpression")%string then
        match lookupAttr "callee" (attrs arg) with
        | Some p => if truthy p then Throw TypeError else Ok false
        | None =>
            match lookupField "callee" (children arg) with
            | None => Ok false
            | Some callee =>
                match lookupAttr "name" (attrs callee) with
                | Some p =>
                    if truthy p then includes allowedClasses (NPrim p)
                    else Ok false
                | None =>
                    if hasKey "name" callee then
                      includes allowedClasses
                        (NObject (objectText "name" callee))
                    else Ok false
                end
            end
        end
      else if (type arg =? "Identifier")%string then Ok true
      else Ok false
  end.

(** ** Comment attachment

    [attachComments] comes from the package estree-util-attach-comments,
    which is not part of the sources.  The program always calls it with one
    comment, and with nodes and comments that carry [range]. *)

Section Sorting.
Variable A : Type.
Variable key : A -> Z.

Fixpoint insertByKey (x : A) (l : list A) : list A :=
  match l with
  | [] => [x]
  | y :: l' => if key x <=? key y then x :: l else y :: insertByKey x l'
  end.

(** A stable sort, as [Array.prototype.sort] is. *)
Fixpoint sortByKey (l : list A) : list A :=
  match l with
  | [] => []
  | x :: l' => insertByKey x (sortByKey l')
  end.
End Sorting.

(** Where a comment lands: the child indices leading to the node, and the
    [leading] and [trailing] properties of the attached copy. *)
Definition Landing : Type := (list nat * (bool * bool))%type.

Fixpoint firstLanding (l : list (Z * (nat * option Landing)))
  : option (nat * Landing) :=
  match l with
  | [] => None
  | (_, (i, Some w)) :: _ => Some (i, w)
  | (_, (_, None)) :: l' => firstLanding l'
  end.

(** Modelled from the spec: the search of the comment-attachment service
    for "the correct lexical position given a source-location anchor", as
    the package's walk performs it.  A node takes the comment as leading
    when the comment starts no later than the node; otherwise its children,
    sorted by start offset, are tried in turn; otherwise the node takes it
    as trailing (dangling when it has no children) when the comment starts
    no later than the node ends. *)
Fixpoint walk (c : Comment) (node : Node) {struct node} : option Landing :=
  match node with
  | MkNode _ _ rg _ _ kids =>
      if fst (c_range c) <=? fst rg then Some ([], (true, false))
      else
        let walked :=
          (fix each (i : nat) (l : list (Slot * Node)) {struct l} :=
             match l with
             | [] => []
             | (_, child) :: l' =>
                 (fst (range child), (i, walk c child)) :: each (S i) l'
             end) 0%nat kids in
        match firstLanding (sortByKey (@fst Z _) walked) with
        | Some (i, (p, fl)) => Some (i :: p, fl)
        | None =>
            if fst (c_range c) <=? snd rg
            then Some ([], (false, negb (length kids =? 0)%nat))
            else None
        end
  end.

Fixpoint updateNth {A : Type} (i : nat) (f : A -> A) (l : list A) {struct l}
  : list A :=
  match l, i with
  | [], _ => []
  | x :: l', O => f x :: l'
  | x :: l', S i' => x :: updateNth i' f l'
  end.

(** [node.comments = v] at the node reached by the child indices [p]. *)
Fixpoint setComments (p : list nat) (v : list Comment) (node : Node) : Node :=
  match node with
  | MkNode ty lc rg cm at_ kids =>
      match p with
      | [] => MkNode ty lc rg (Some v) at_ kids
      | i :: p' =>
          MkNode ty lc rg cm at_
            (updateNth i (fun sc => (fst sc, setComments p' v (snd sc))) kids)
      end
  end.

Definition withFields (c : Comment) (fl : bool * bool) : Comment :=
  mkComment (c_type c) (c_value c) (c_loc c) (c_range c) (Some fl).

(** Modelled from the spec: the comment-attachment service,
    [attachComments(tree, [comment])], which "inserts one or more comment
    nodes into their correct lexical position given a source-location
    anchor; mutates the tree in place".  The node found by [walk] is
    assigned a fresh [comments] array with a copy of the comment carrying
    the [leading] and [trailing] properties. *)
Definition attachComments (tree : Node) (comment : Comment) : Node :=
  match walk comment tree with
  | Some (p, fl) => setComments p [withFields comment fl] tree
  | None => tree
  end.

(** ** The annotator *)

Record PluginOptions : Type := mkPluginOptions {
  highlightThrows : bool;
  allowedErrorClasses : option Json;
  enforceAllowedClasses : bool;
  include : option Json;
  exclude : option Json
}.

(** [cs?.some(...)] of [hasComment] for the value [cs] of [ast.comments]:
    an [undefined] result is falsy. *)
Definition hasCommentIn (cs : option (list Comment)) (newComment : Comment)
  : bool :=
  match cs with
  | Some l =>
      existsb
        (fun comment =>
           (line (loc_start (c_loc comment))
              =? line (loc_start (c_loc newComment)) - 1)
           && (c_value comment =? c_value newComment)%string)
        l
  | None => false
  end.

Definition hasComment (ast : Node) (newComment : Comment) : bool :=
  hasCommentIn (comments ast) newComment.

Definition highlightComment (node : Node) : Comment :=
  mkComment Block " THROW STATEMENT " (loc node) (range node) None.

(** [allowedErrorClasses.join(", ")]; only an array has a [join]. *)
Definition join (allowedClasses : option Json) : Result string :=
  match allowedClasses with
  | Some (JArray items) =>
      parts <- joinParts items ;; Ok (String.concat ", " parts)
  | _ => Throw TypeError
  end.

Definition warningComment (allowedClassesStr : string) (node : Node)
  : Comment :=
  mkComment Block
    (" WARNING: Only throw instances of: " ++ allowedClassesStr ++ " ")
    (loc node) (range node) None.

(** [if (!hasComment(comment)) attachComments(ast, [comment])]. *)
Definition attachUnlessPresent (ast : Node) (comment : Comment) : Node :=
  if hasComment ast comment then ast else attachComments ast comment.

(** The body of [if (node.type === "ThrowStatement")]: [ast] is the tree as
    the earlier attachments left it. *)
Definition processThrow (pluginOptions : PluginOptions) (node ast : Node)
  : Result Node :=
  let ast1 :=
    if highlightThrows pluginOptions
    then attachUnlessPresent ast (highlightComment node)
    else ast in
  if enforceAllowedClasses pluginOptions then
    isAllowed <- isAllowedErrorClass node (allowedErrorClasses pluginOptions) ;;
    if isAllowed then Ok ast1
    else
      allowedClassesStr <- join (allowedErrorClasses pluginOptions) ;;
      Ok (attachUnlessPresent ast1 (warningComment allowedClassesStr node))
  else Ok ast1.

(** [traverse], with the work done at a throw statement as a parameter.
    The walk reads the [type], the keys and the children of the nodes of
    the tree it was started on; the attachments made on the way assign
    [comments] properties only, and a [comments] array holds comment
    objects, which are visited without effect.  So the recursion runs over
    the tree as it was given, and the state [St] carries what the visits
    change. *)
Section Traverse.
Variable St : Type.
Variable visit : Node -> St -> Result St.

Fixpoint traverseWith (node : Node) (st : St) {struct node} : Result St :=
  match node with
  | MkNode ty _ _ _ _ kids =>
      if hasKey "start" node then Ok st
      else
        st1 <- (if (ty =? "ThrowStatement")%string
                then visit node st else Ok st) ;;
        (fix each (l : list (Slot * Node)) (st : St) {struct l} : Result St :=
           match l with
           | [] => Ok st
           | (_, child) :: l' =>
               st' <- traverseWith child st ;; each l' st'
           end) kids st1
  end.
End Traverse.

Definition traverse (pluginOptions : PluginOptions) (node ast : Node)
  : Result Node :=
  traverseWith (processThrow pluginOptions) node ast.

(** ** [processThrowStatements] *)

(** A list-valued option as the caller's object may hold it: the property
    is missing, is [undefined], or holds a value, which the type
    [string[]] declares to be a list and [typeof] tests for being text. *)
Inductive ListOption : Type :=
| Absent
| Undefined
| Value (j : Json).

Definition Text (s : string) : ListOption := Value (JString s).
Definition Items (l : list string) : ListOption := Value (strings l).

(** The [options] object; a boolean option that is missing or [undefined]
    is [None]. *)
Record ThrowErrorOptions : Type := mkOptions {
  o_highlightThrows : option bool;
  o_allowedErrorClasses : ListOption;
  o_enforceAllowedClasses : option bool;
  o_include : ListOption;
  o_exclude : ListOption
}.

Definition setInclude (v : ListOption) (o : ThrowErrorOptions) :=
  mkOptions (o_highlightThrows o) (o_allowedErrorClasses o)
    (o_enforceAllowedClasses o) v (o_exclude o).
Definition setExclude (v : ListOption) (o : ThrowErrorOptions) :=
  mkOptions (o_highlightThrows o) (o_allowedErrorClasses o)
    (o_enforceAllowedClasses o) (o_include o) v.
Definition setAllowedErrorClasses (v : ListOption) (o : ThrowErrorOptions) :=
  mkOptions (o_highlightThrows o) v
    (o_enforceAllowedClasses o) (o_include o) (o_exclude o).

(** A boolean option read through [{ ...defaultOptions, ...options }] and
    then tested: the default is [false] and [undefined] is falsy. *)
Definition flag (v : option bool) : bool :=
  match v with Some b => b | None => false end.

(** Modelled from the spec: the glob-match service, of which
    [matcher], [arrayMatcher], [isState], [picomatch] and [isMatch] are
    the parts, as the packages micromatch and picomatch compute it.

    What a compiled pattern answers for a path: anything but a string,
    [None] here, is refused with a [TypeError], and the empty path matches
    nothing. *)
Definition matcher (re : string -> bool) (input : option string)
  : Result bool :=
  match input with
  | None => Throw TypeError
  | Some s => Ok (if (s =? "")%string then false else re s)
  end.

(** Modelled from the spec: the matcher of a pattern array; the first
    pattern that matches decides, and no pattern means no match. *)
Fixpoint arrayMatcher (fns : list (option string -> Result bool))
    (str : option string) : Result bool :=
  match fns with
  | [] => Ok false
  | isMatch :: fns' =>
      state <- isMatch str ;;
      if state then Ok true else arrayMatcher fns' str
  end.

(** Modelled from the spec: a parsed pattern, which the matcher accepts
    in place of a string, is an object with truthy [tokens] and
    [input]. *)
Definition isState (glob : Json) : bool :=
  match glob with
  | JObject m =>
      match member "tokens" m, member "input" m with
      | Some t, Some i => truthyJson t && truthyJson i
      | _, _ => false
      end
  | _ => false
  end.

Section Process.

(** [JSON.parse]. *)
Variable JSON_parse : string -> Result Json.

(** The compilation of one glob pattern, a non-empty string or a parsed
    pattern, to a test on non-empty paths; it may raise. *)
Variable makeRe : Json -> Result (string -> bool).

(** Modelled from the spec: the matcher construction behind the
    glob-match service, as the package picomatch performs it.  An array
    compiles every item, in order, before anything is matched; a pattern
    that is the empty string, or neither a string nor a parsed pattern, is
    refused with a [TypeError]. *)
Fixpoint picomatch (glob : Json) : Result (option string -> Result bool) :=
  match glob with
  | JArray items =>
      fns <- (fix each (l : list Json)
                : Result (list (option string -> Result bool)) :=
                match l with
                | [] => Ok []
                | input :: l' =>
                    fn <- picomatch input ;;
                    rest <- each l' ;;
                    Ok (fn :: rest)
                end) items ;;
      Ok (arrayMatcher fns)
  | JString s =>
      if (s =? "")%string then Throw TypeError
      else regex <- makeRe glob ;; Ok (matcher regex)
  | _ =>
      if isState glob then regex <- makeRe glob ;; Ok (matcher regex)
      else Throw TypeError
  end.

(** Modelled from the spec: the glob-match service ([micromatch.isMatch],
    not part of the sources), which "returns whether a path satisfies at
    least one pattern in a pattern list": [picomatch(patterns)(str)]. *)
Definition isMatch (filePath : option string) (patterns : Json)
  : Result bool :=
  fn <- picomatch patterns ;; fn filePath.

(** [if (typeof options.x === "string") options.x = JSON.parse(options.x)]:
    the value the property holds afterwards, paired with the value that
    [{ ...defaultOptions, ...options }] then has for it ([None] for
    [undefined], the default [[]] for a missing property).  What
    [JSON.parse] returns is assigned as it is. *)
Definition decode (v : ListOption) : Result (ListOption * option Json) :=
  match v with
  | Absent => Ok (Absent, Some (JArray []))
  | Undefined => Ok (Undefined, None)
  | Value (JString s) => j <- JSON_parse s ;; Ok (Value j, Some j)
  | Value j => Ok (Value j, Some j)
  end.

(** [pluginOptions.include ? micromatch.isMatch(...) : true]; an array is
    truthy, also when it is empty.  [filePath] is [None] when the caller
    passes no string. *)
Definition shouldInclude (pluginOptions : PluginOptions)
    (filePath : option string) : Result bool :=
  match include pluginOptions with
  | Some patterns =>
      if truthyJson patterns then isMatch filePath patterns else Ok true
  | None => Ok true
  end.

Definition shouldExclude (pluginOptions : PluginOptions)
    (filePath : option string) : Result bool :=
  match exclude pluginOptions with
  | Some patterns =>
      if truthyJson patterns then isMatch filePath patterns else Ok false
  | None => Ok false
  end.

(** The call returns the [options] object as the call left it and the
    outcome: the tree, or the exception raised. *)
Definition processThrowStatements (ast : Node) (options : ThrowErrorOptions)
    (filePath : option string) : ThrowErrorOptions * Result Node :=
  match decode (o_include options) with
  | Throw e => (options, Throw e)
  | Ok (v1, inc) =>
      let options1 := setInclude v1 options in
      match decode (o_exclude options1) with
      | Throw e => (options1, Throw e)
      | Ok (v2, exc) =>
          let options2 := setExclude v2 options1 in
          match decode (o_allowedErrorClasses options2) with
          | Throw e => (options2, Throw e)
          | Ok (v3, allowed) =>
              let options3 := setAllowedErrorClasses v3 options2 in
              let pluginOptions :=
                mkPluginOptions (flag (o_highlightThrows options3)) allowed
                  (flag (o_enforceAllowedClasses options3)) inc exc in
              (options3,
               included <- shouldInclude pluginOptions filePath ;;
               excluded <- shouldExclude pluginOptions filePath ;;
               if negb included || excluded then Ok ast
               else traverse pluginOptions ast ast)
          end
      end
  end.

End Process.

(** ** Notions used to state the properties *)

(** The tree without any [comments] property: everything the annotator is
    meant to leave alone. *)
Fixpoint strip (node : Node) : Node :=
  match node with
  | MkNode ty lc rg _ at_ kids =>
      MkNode ty lc rg None at_
        (map (fun sc => (fst sc, strip (snd sc))) kids)
  end.

(** The node reached from [node] by a list of child indices. *)
Fixpoint nodeAt (p : list nat) (node : Node) : option Node :=
  match p with
  | [] => Some node
  | i :: p' =>
      match nth_error (children node) i with
      | Some sc => nodeAt p' (snd sc)
      | None => None
      end
  end.

Fixpoint nodesAt (ps : list (list nat)) (node : Node) : list Node :=
  match ps with
  | [] => []
  | p :: ps' =>
      match nodeAt p node with
      | Some n => n :: nodesAt ps' node
      | None => nodesAt ps' node
      end
  end.

(** The positions at which [traverse] does its work, in the order of the
    walk: the throw statements not below a node with a [start] key. *)
Fixpoint throwPaths (node : Node) : list (list nat) :=
  match node with
  | MkNode ty _ _ _ _ kids =>
      if hasKey "start" node then []
      else
        ((if (ty =? "ThrowStatement")%string then [[]] else [])
         ++ (fix each (i : nat) (l : list (Slot * Node)) {struct l} :=
               match l with
               | [] => []
               | (_, child) :: l' =>
                   (map (cons i) (throwPaths child) ++ each (S i) l')%list
               end) 0%nat kids)%list
  end.

(** The nodes at those positions. *)
Fixpoint visited (node : Node) : list Node :=
  match node with
  | MkNode ty _ _ _ _ kids =>
      if hasKey "start" node then []
      else
        ((if (ty =? "ThrowStatement")%string then [node] else [])
         ++ flat_map (fun sc => visited (snd sc)) kids)%list
  end.

(** No node of the tree has a [start] property, as in the trees of
    typescript-estree, which give positions in [range] and [loc]. *)
Fixpoint startFree (node : Node) : bool :=
  match node with
  | MkNode _ _ _ _ _ kids =>
      negb (hasKey "start" node)
      && forallb (fun sc => startFree (snd sc)) kids
  end.

(** Running a visit over a list of nodes, stopping at the first
    exception. *)
Fixpoint visitAll {St : Type} (visit : Node -> St -> Result St)
    (l : list Node) (st : St) : Result St :=
  match l with
  | [] => Ok st
  | n :: l' => st' <- visit n st ;; visitAll visit l' st'
  end.

(** A sequence of assignments [node.comments = v]. *)
Definition assign (tree : Node) (a : list nat * list Comment) : Node :=
  setComments (fst a) (snd a) tree.

Definition assignAll (l : list (list nat * list Comment)) (tree : Node)
  : Node :=
  fold_left assign l tree.

(** Every throw statement that [traverse] reaches starts after the root
    does. *)
Definition throwsStartInside (root : Node) : Prop :=
  forall T, In T (visited root) -> fst (range root) < fst (range T).

(** The inner loops of [traverseWith], [walk] and [throwPaths], under
    names of their own. *)
Section InnerLoops.
Variable St : Type.
Variable visit : Node -> St -> Result St.
Variable c : Comment.

Fixpoint traverseEach (l : list (Slot * Node)) (st : St) : Result St :=
  match l with
  | [] => Ok st
  | (_, child) :: l' =>
      st' <- traverseWith visit child st ;; traverseEach l' st'
  end.

Fixpoint walkEach (i : nat) (l : list (Slot * Node))
  : list (Z * (nat * option Landing)) :=
  match l with
  | [] => []
  | (_, child) :: l' =>
      (fst (range child), (i, walk c child)) :: walkEach (S i) l'
  end.
End InnerLoops.

Fixpoint throwPathsEach (i : nat) (l : list (Slot * Node))
  : list (list nat) :=
  match l with
  | [] => []
  | (_, child) :: l' =>
      (map (cons i) (throwPaths child) ++ throwPathsEach (S i) l')%list
  end.

(** The assignments a pass makes, computed from the tree the pass starts
    on: what [attachUnlessPresent], [processThrow] and the whole walk do
    as long as the root's [comments] stay as they are. *)
Definition planComment (root : Node) (comment : Comment)
  : list (list nat * list Comment) :=
  if hasComment root comment then []
  else
    match walk comment root with
    | Some (p, fl) => [(p, [withFields comment fl])]
    | None => []
    end.

Definition planThrow (pluginOptions : PluginOptions) (root node : Node)
  : Result (list (list nat * list Comment)) :=
  let highlight :=
    if highlightThrows pluginOptions
    then planComment root (highlightComment node) else [] in
  if enforceAllowedClasses pluginOptions then
    isAllowed <- isAllowedErrorClass node (allowedErrorClasses pluginOptions) ;;
    if isAllowed then Ok highlight
    else
      allowedClassesStr <- join (allowedErrorClasses pluginOptions) ;;
      Ok (highlight
            ++ planComment root (warningComment allowedClassesStr node))%list
  else Ok highlight.

Fixpoint planAll (pluginOptions : PluginOptions) (root : Node)
    (l : list Node) : Result (list (list nat * list Comment)) :=
  match l with
  | [] => Ok []
  | node :: l' =>
      here <- planThrow pluginOptions root node ;;
      rest <- planAll pluginOptions root l' ;;
      Ok (here ++ rest)%list
  end.

(** A comment anchored at [node] lands below the root, not on it. *)
Definition landsBelow (root node : Node) : Prop :=
  forall c, c_range c = range node ->
            exists i p fl, walk c root = Some (i :: p, fl).


(** The work at a throw statement whose comments land on the root, as a
    function of the root's [comments] alone. *)
Definition withRootComments (cs : option (list Comment)) (node : Node)
  : Node :=
  match node with
  | MkNode ty lc rg _ at_ kids => MkNode ty lc rg cs at_ kids
  end.

Definition rootAttach (cs : option (list Comment)) (comment : Comment)
  : option (list Comment) :=
  if hasCommentIn cs comment then cs
  else Some [withFields comment (true, false)].

Definition rootStep (pluginOptions : PluginOptions) (node : Node)
    (cs : option (list Comment)) : Result (option (list Comment)) :=
  let cs1 :=
    if highlightThrows pluginOptions
    then rootAttach cs (highlightComment node) else cs in
  if enforceAllowedClasses pluginOptions then
    isAllowed <- isAllowedErrorClass node (allowedErrorClasses pluginOptions) ;;
    if isAllowed then Ok cs1
    else
      allowedClassesStr <- join (allowedErrorClasses pluginOptions) ;;
      Ok (rootAttach cs1 (warningComment allowedClassesStr node))
  else Ok cs1.

(** Every throw statement that [traverse] reaches after the first one
    starts after the root does.  In a parsed program only the first
    statement can start where the program starts. *)
Definition laterThrowsStartInside (root : Node) : Prop :=
  forall T, In T (tl (visited root)) -> fst (range root) < fst (range T).

(** The guard [!shouldInclude || shouldExclude]: both matches are
    evaluated before it is tested, [include] first. *)
Definition guard (makeRe : Json -> Result (string -> bool))
    (pluginOptions : PluginOptions) (filePath : option string)
  : Result bool :=
  included <- shouldInclude makeRe pluginOptions filePath ;;
  excluded <- shouldExclude makeRe pluginOptions filePath ;;
  Ok (negb included || excluded).

(** [typeof v === "string"] for the value of a list option. *)
Definition isText (v : ListOption) : bool :=
  match v with Value (JString _) => true | _ => false end.

(** The option is not a text that [JSON.parse] rejects. *)
Definition decodes (JSON_parse : string -> Result Json) (v : ListOption)
  : bool :=
  match v with
  | Value (JString s) =>
      match JSON_parse s with Ok _ => true | Throw _ => false end
  | _ => true
  end.

(** ** Sample inputs *)

Module Sample.

Definition lines (a b : Z) : SourceLocation :=
  mkLoc (mkPosition a 0) (mkPosition b 0).

Definition identifier (name : string) (rg : Z * Z) (ln : Z) : Node :=
  MkNode "Identifier" (lines ln ln) rg None [("name", PStr name)] [].

Definition literal (raw : string) (rg : Z * Z) (ln : Z) : Node :=
  MkNode "Literal" (lines ln ln) rg None [("raw", PStr raw)] [].

(** [new <cls>()], the callee starting four characters in. *)
Definition newExpression (cls : string) (rg : Z * Z) (ln : Z) : Node :=
  MkNode "NewExpression" (lines ln ln) rg None []
    [(Field "callee",
      identifier cls (fst rg + 4, fst rg + 4 + Z.of_nat (String.length cls)) ln)].

Definition throwStatement (arg : Node) (rg : Z * Z) (ln : Z) : Node :=
  MkNode "ThrowStatement" (lines ln ln) rg None [] [(Field "argument", arg)].

Fixpoint elems (key : string) (i : nat) (l : list Node) : list (Slot * Node) :=
  match l with
  | [] => []
  | n :: l' => (Elem key i, n) :: elems key (S i) l'
  end.

Definition blockStatement (body : list Node) (rg : Z * Z) (l1 l2 : Z) : Node :=
  MkNode "BlockStatement" (lines l1 l2) rg None [] (elems "body" 0 body).

Definition program (body : list Node) (rg : Z * Z) (l1 l2 : Z) : Node :=
  MkNode "Program" (lines l1 l2) rg (Some [])
    [("sourceType", PStr "module")] (elems "body" 0 body).

(** [{ throw err; throw new Foo() }] over four lines, behind a leading
    blank line. *)
Definition twoThrows : Node :=
  program
    [blockStatement
       [throwStatement (identifier "err" (11, 14)%Z 3) (5, 14)%Z 3;
        throwStatement (newExpression "Foo" (23, 32)%Z 4) (17, 32)%Z 4]
       (1, 34)%Z 2 5]
    (0, 34)%Z 1 5.

(** A compiler for string patterns: a pattern matches the path equal to
    it. *)
Definition exact (glob : Json) : Result (string -> bool) :=
  match glob with
  | JString pattern => Ok (fun filePath => (filePath =? pattern)%string)
  | _ => Throw TypeError
  end.

(** A decoder that knows three texts: two arrays, and a string in
    quotes. *)
Definition quote : string := String (Ascii.ascii_of_nat 34) EmptyString.

Definition textAB : string :=
  "[" ++ quote ++ "A" ++ quote ++ "," ++ quote ++ "B" ++ quote ++ "]".

Definition textFoo : string := quote ++ "Foo" ++ quote.

Definition parseKnown (s : string) : Result Json :=
  if (s =? textAB)%string then Ok (strings ["A"; "B"])
  else if (s =? "[]")%string then Ok (strings [])
  else if (s =? textFoo)%string then Ok (JString "Foo")
  else Throw SyntaxError.

End Sample.

Module SampleThrows.

(** [throw new Foo()], [throw err] and [throw "oops"], on line 4. *)
Definition throwFoo : Node :=
  Sample.throwStatement (Sample.newExpression "Foo" (23, 32)%Z 4) (17, 32)%Z 4.

Definition throwErr : Node :=
  Sample.throwStatement (Sample.identifier "err" (23, 26)%Z 4) (17, 26)%Z 4.

Definition throwOops : Node :=
  Sample.throwStatement (Sample.literal "'oops'" (23, 29)%Z 4) (17, 29)%Z 4.

Definition enforcing (allowed : list string) : PluginOptions :=
  mkPluginOptions false (Some (strings allowed)) true
    (Some (strings [])) (Some (strings [])).

End SampleThrows.

Module SamplePass.

Definition highlighting : PluginOptions :=
  mkPluginOptions true (Some (strings [])) false
    (Some (strings [])) (Some (strings [])).

Definition both : PluginOptions :=
  mkPluginOptions true (Some (strings ["TypeError"])) true
    (Some (strings [])) (Some (strings [])).

(** The tree a pass returns, and the tree given when the pass raises. *)
Definition pass (pluginOptions : PluginOptions) (tree : Node) : Node :=
  match traverse pluginOptions tree tree with
  | Ok tree' => tree'
  | Throw _ => tree
  end.

End SamplePass.

(** [throw err] and [throw new Foo()] on the first two lines of a file:
    the first throw statement starts where the program starts. *)
Definition startsWithThrow : Node :=
  Sample.program
    [Sample.throwStatement (Sample.identifier "err" (6, 9)%Z 1) (0, 9)%Z 1;
     Sample.throwStatement (Sample.newExpression "Foo" (16, 25)%Z 2)
       (10, 25)%Z 2]
    (0, 26)%Z 1 3.

Module SampleRoot.





End SampleRoot.

(** ** [createWrappedParsers], [parsers] and [options]

    The options object of the host holds the five options of the plugin
    next to [filepath] and the host's own options; a parser holds [parse]
    next to its other properties.  [Other] and [Rest] stand for what the
    program passes along without reading it.  The parsers of
    prettier/plugins/typescript are not part of the sources: the [parse]
    of an original parser is a function of the text and the options, and
    returns a tree or raises. *)

Record ParserOptions (Other : Type) : Type := mkParserOptions {
  filepath : option string;
  throwOptions : ThrowErrorOptions;
  otherOptions : Other
}.

Record Parser (Other Rest R : Type) : Type := mkParser {
  parse : string -> option (ParserOptions Other) -> R;
  parserRest : Rest
}.

Section Wrapping.
Variable JSON_parse : string -> Result Json.
Variable makeRe : Json -> Result (string -> bool).
Variables Other Rest : Type.

(** The [parse] of a wrapped parser.  The call returns the options object
    as it leaves it ([None] for an [options] that is [undefined]) and the
    outcome.  [options.filepath] is evaluated after the original parser
    returned and before [processThrowStatements] is entered; on an
    [undefined] [options] it raises a [TypeError], [options ?? {}]
    notwithstanding. *)
Definition wrappedParse (originalParser : Parser Other Rest (Result Node))
    (text : string) (options : option (ParserOptions Other))
  : option (ParserOptions Other) * Result Node :=
  match parse originalParser text options with
  | Throw e => (options, Throw e)
  | Ok ast =>
      match options with
      | None => (None, Throw TypeError)
      | Some o =>
          let r := processThrowStatements JSON_parse makeRe ast
                     (throwOptions o) (filepath o) in
          (Some (mkParserOptions (filepath o) (fst r) (otherOptions o)),
           snd r)
      end
  end.

(** [originalParsers] lists the own properties of the object in
    enumeration order, each name once. *)
Definition createWrappedParsers
    (originalParsers : list (string * Parser Other Rest (Result Node)))
  : list (string
          * Parser Other Rest (option (ParserOptions Other) * Result Node)) :=
  map (fun entry =>
         (fst entry,
          mkParser (wrappedParse (snd entry)) (parserRest (snd entry))))
      originalParsers.

(** [parsers], for the parsers that prettier/plugins/typescript exports. *)
Definition parsers
    (typescriptParsers : list (string * Parser Other Rest (Result Node))) :=
  createWrappedParsers typescriptParsers.

End Wrapping.

(** The option schema [options]. *)
Inductive OptionDefault : Type :=
| DefaultBoolean (b : bool)
| DefaultString (s : string).

Record SupportOption : Type := mkSupportOption {
  so_type : string;
  so_default : OptionDefault;
  so_description : string;
  so_category : string
}.

Definition includeDefault : string :=
  "[" ++ Sample.quote ++ "**/*.ts" ++ Sample.quote ++ ", "
      ++ Sample.quote ++ "**/*.tsx" ++ Sample.quote ++ "]".

Definition options : list (string * SupportOption) :=
  [("highlightThrows",
    mkSupportOption "boolean" (DefaultBoolean false)
      "Whether to add comments highlighting all throw statements" "Global");
   ("allowedErrorClasses",
    mkSupportOption "string" (DefaultString "[]")
      "List of allowed error classes that can be thrown" "Global");
   ("enforceAllowedClasses",
    mkSupportOption "boolean" (DefaultBoolean true)
      "Whether to enforce that only allowed classes are thrown" "Global");
   ("include",
    mkSupportOption "string" (DefaultString includeDefault)
      "Glob patterns for files to include" "Global");
   ("exclude",
    mkSupportOption "string" (DefaultString "[]")
      "Glob patterns for files to exclude" "Global")].

Fixpoint schemaDefault (name : string) (schema : list (string * SupportOption))
  : option OptionDefault :=
  match schema with
  | [] => None
  | (n, so) :: schema' =>
      if (name =? n)%string then Some (so_default so)
      else schemaDefault name schema'
  end.

Definition booleanDefault (name : string) : option bool :=
  match schemaDefault name options with
  | Some (DefaultBoolean b) => Some b
  | _ => None
  end.

Definition listDefault (name : string) : ListOption :=
  match schemaDefault name options with
  | Some (DefaultString s) => Text s
  | _ => Absent
  end.

(** The options object that holds, for each option, the default of the
    schema: what reaches [processThrowStatements] when nothing is
    configured and the host fills in the declared defaults. *)
Definition schemaDefaults : ThrowErrorOptions :=
  mkOptions (booleanDefault "highlightThrows")
    (listDefault "allowedErrorClasses")
    (booleanDefault "enforceAllowedClasses")
    (listDefault "include") (listDefault "exclude").

(** ** Further notions used to state properties *)

(** The argument of the throw statement is a bare identifier. *)
Definition throwsIdentifier (T : Node) : bool :=
  match lookupField "argument" (children T) with
  | Some arg => (type arg =? "Identifier")%string
  | None => false
  end.

(** The argument is a [new] expression whose [callee] property holds a
    truthy primitive, which no parser produces. *)
Definition primitiveCallee (T : Node) : bool :=
  match lookupField "argument" (children T) with
  | Some arg =>
      (type arg =? "NewExpression")%string
      && match lookupAttr "callee" (attrs arg) with
         | Some p => truthy p
         | None => false
         end
  | None => false
  end.

(** Nothing is left to attach at the throw statement [T]: a highlight
    comment, when asked for, is found by [hasComment], and under
    enforcement [T] is allowed or its warning comment is found. *)
Definition alreadyAnnotated (pluginOptions : PluginOptions) (root T : Node)
  : Prop :=
  (highlightThrows pluginOptions = true ->
   hasComment root (highlightComment T) = true)
  /\ (enforceAllowedClasses pluginOptions = true ->
      isAllowedErrorClass T (allowedErrorClasses pluginOptions) = Ok true
      \/ exists allowedClassesStr,
          isAllowedErrorClass T (allowedErrorClasses pluginOptions)
            = Ok false
          /\ join (allowedErrorClasses pluginOptions) = Ok allowedClassesStr
          /\ hasComment root (warningComment allowedClassesStr T) = true).

(** All comments held by the nodes of a tree. *)
Fixpoint allComments (node : Node) : list Comment :=
  match node with
  | MkNode _ _ _ cm _ kids =>
      (match cm with Some l => l | None => [] end
       ++ flat_map (fun sc => allComments (snd sc)) kids)%list
  end.

(** A comment the annotator synthesizes at the throw statement [T], as
    attached: the highlight, or the warning for a disallowed [T]. *)
Definition synthesizedAt (pluginOptions : PluginOptions) (T : Node)
    (c : Comment) : Prop :=
  exists fl,
    (highlightThrows pluginOptions = true
     /\ c = withFields (highlightComment T) fl)
    \/ (enforceAllowedClasses pluginOptions = true
        /\ exists allowedClassesStr,
            isAllowedErrorClass T (allowedErrorClasses pluginOptions)
              = Ok false
            /\ join (allowedErrorClasses pluginOptions)
                = Ok allowedClassesStr
            /\ c = withFields (warningComment allowedClassesStr T) fl).

Module SampleHost.

(** A decoder that knows the default texts of the schema. *)
Definition parseDefaults (s : string) : Result Json :=
  if (s =? includeDefault)%string then Ok (strings ["**/*.ts"; "**/*.tsx"])
  else if (s =? "[]")%string then Ok (strings [])
  else Throw SyntaxError.

(** A compiler that knows the suffix of TypeScript files. *)
Definition bySuffix (glob : Json) : Result (string -> bool) :=
  match glob with
  | JString pattern =>
      Ok (fun filePath =>
            ((pattern =? "**/*.ts") && (filePath =? "a.ts"))%string)
  | _ => Throw TypeError
  end.

(** An original parser: the text "throws" parses to [Sample.twoThrows],
    any other text is a syntax error. *)
Definition original : Parser unit unit (Result Node) :=
  mkParser
    (fun text (_ : option (ParserOptions unit)) =>
       if (text =? "throws")%string then Ok Sample.twoThrows
       else Throw SyntaxError)
    tt.

Definition hostOptions (o : ThrowErrorOptions) : ParserOptions unit :=
  mkParserOptions (Some "a.ts"%string) o tt.

End SampleHost.


Module SampleReparsed.

(** The tree of a file whose first line is the highlight comment and
    whose second line is [throw err]. *)
Definition annotated : Node :=
  MkNode "Program" (Sample.lines 1 3) (0, 32)%Z
    (Some [mkComment Block " THROW STATEMENT " (Sample.lines 1 1) (0, 21)%Z
             None])
    [("sourceType", PStr "module")]
    [(Elem "body" 0,
      Sample.throwStatement (Sample.identifier "err" (28, 31)%Z 2)
        (22, 31)%Z 2)].

(** Enforcement with an [allowedErrorClasses] that is [undefined]. *)
Definition enforcingUndefined : PluginOptions :=
  mkPluginOptions false None true (Some (strings [])) (Some (strings [])).

End SampleReparsed.


(** Case analysis along the tests of [isAllowedErrorClass]. *)
Ltac allowed_cases :=
  unfold isAllowedErrorClass, throwsIdentifier, primitiveCallee;
  repeat (match goal with
          | |- context [match lookupField ?k ?l with _ => _ end] =>
              destruct (lookupField k l)
          | |- context [match lookupAttr ?k ?l with _ => _ end] =>
              destruct (lookupAttr k l) as [[| |?|?|?]|]
          | |- context [(type ?n =? ?s)%string] =>
              let E := fresh "E" in destruct (type n =? s)%string eqn:E
          | |- context [hasKey ?k ?n] => destruct (hasKey k n)
          | |- context [if ?b then _ else _] => destruct b
          end; cbn).

(** * Properties *)

(** ** The file filter *)

Section FilterFacts.
Variable JSON_parse : string -> Result Json.
Variable makeRe : Json -> Result (string -> bool).

(** No path, not even a missing one, matches the empty pattern list. *)
Lemma isMatch_empty (P : option string) :
  isMatch makeRe P (strings []) = Ok false.
Proof. reflexivity. Qed.

Lemma process_decoded (ast : Node) (o : ThrowErrorOptions) (P : option string)
    v1 inc v2 exc v3 al :
  decode JSON_parse (o_include o) = Ok (v1, inc) ->
  decode JSON_parse (o_exclude o) = Ok (v2, exc) ->
  decode JSON_parse (o_allowedErrorClasses o) = Ok (v3, al) ->
  processThrowStatements JSON_parse makeRe ast o P =
  let po := mkPluginOptions (flag (o_highlightThrows o)) al
              (flag (o_enforceAllowedClasses o)) inc exc in
  (setAllowedErrorClasses v3 (setExclude v2 (setInclude v1 o)),
   skip <- guard makeRe po P ;;
   if skip then Ok ast else traverse po ast ast).
Proof.
  intros H1 H2 H3. unfold processThrowStatements.
  rewrite H1. cbn [setInclude o_exclude]. rewrite H2.
  cbn [setExclude setInclude o_allowedErrorClasses]. rewrite H3. cbn zeta.
  f_equal. unfold guard.
  destruct (shouldInclude _ _ _) as [i|]; [|reflexivity]. cbn [bind].
  destruct (shouldExclude _ _ _) as [x|]; reflexivity.
Qed.

(** What the guard of [processThrowStatements] computes on decoded lists:
    the file is processed exactly when some [include] pattern matches and
    no [exclude] pattern does. *)
Lemma filter_rule (hl en : bool) (al : option Json)
    (I E : list string) (P : option string) :
  let po := mkPluginOptions hl al en (Some (strings I)) (Some (strings E)) in
  guard makeRe po P = Ok false
  <-> isMatch makeRe P (strings I) = Ok true
      /\ isMatch makeRe P (strings E) = Ok false.
Proof.
  unfold guard, shouldInclude, shouldExclude. cbn [include exclude].
  cbn [truthyJson strings].
  change (JArray (map JString I)) with (strings I).
  change (JArray (map JString E)) with (strings E).
  destruct (isMatch makeRe P (strings I)) as [[|]|];
    destruct (isMatch makeRe P (strings E)) as [[|]|]; cbn;
    split; try discriminate; try (intros [H1 H2]; discriminate); auto.
Qed.

(** For an [include] list that is not empty, and patterns and a path that
    the matcher accepts, the guard agrees with the rule of the
    specification. *)
Lemma filter_rule_nonempty_include (hl en : bool)
    (al : option Json) (I E : list string) (P : option string) i x :
  I <> [] ->
  isMatch makeRe P (strings I) = Ok i ->
  isMatch makeRe P (strings E) = Ok x ->
  let po := mkPluginOptions hl al en (Some (strings I)) (Some (strings E)) in
  guard makeRe po P = Ok false
  <-> (I = [] \/ isMatch makeRe P (strings I) = Ok true)
      /\ ~ (E <> [] /\ isMatch makeRe P (strings E) = Ok true).
Proof.
  intros HI Hi Hx po. subst po. rewrite filter_rule. rewrite Hi, Hx. split.
  - intros [H1 H2]. split; [now right|]. intros [_ H]. congruence.
  - intros [[H|H] H2]; [contradiction|]. split; [exact H|].
    destruct x; [|reflexivity]. exfalso. apply H2. split; [|reflexivity].
    intros ->. rewrite isMatch_empty in Hx. discriminate Hx.
Qed.

End FilterFacts.

(** C1, evaluated on the code: with an [include] list that is empty,
    whether passed as a list or left to the default of
    [processThrowStatements], no pattern matches, the guard
    [!shouldInclude || shouldExclude] holds and no file is processed: once
    the [exclude] patterns have been matched, which raises when the
    matcher refuses one of them or the path, the tree is returned as it
    is.  With nothing to exclude every call returns the tree as it is. *)
Theorem C1_empty_include_skips_every_file :
  forall JSON_parse makeRe ast hl en al E P,
    snd (processThrowStatements JSON_parse makeRe ast
           (mkOptions hl (Items al) en (Items []) (Items E)) P)
    = (_ <- isMatch makeRe P (strings E) ;; Ok ast)
    /\ snd (processThrowStatements JSON_parse makeRe ast
              (mkOptions hl (Items al) en Absent (Items E)) P)
       = (_ <- isMatch makeRe P (strings E) ;; Ok ast)
    /\ snd (processThrowStatements JSON_parse makeRe ast
              (mkOptions hl (Items al) en (Items []) (Items [])) P) = Ok ast
    /\ snd (processThrowStatements JSON_parse makeRe ast
              (mkOptions hl (Items al) en Absent (Items [])) P) = Ok ast.
Proof.
  intros. repeat split; reflexivity.
Qed.

(** C1 as the specification states it fails: for the path [a.ts] and empty
    [include] and [exclude] lists the stated rule says "processed", the
    guard of the code says "skip". *)
Lemma C1_stated_rule_fails :
  ~ (forall (makeRe : Json -> Result (string -> bool)) (P : string)
            (I E : list string),
        let po := mkPluginOptions false (Some (strings [])) false
                    (Some (strings I)) (Some (strings E)) in
        guard makeRe po (Some P) = Ok false
        <-> (I = [] \/ isMatch makeRe (Some P) (strings I) = Ok true)
            /\ ~ (E <> [] /\ isMatch makeRe (Some P) (strings E) = Ok true)).
Proof.
  intros H.
  destruct (H Sample.exact "a.ts"%string [] []) as [_ H2].
  cbn in H2. discriminate H2. split.
  - left; reflexivity.
  - intros [HE _]. apply HE; reflexivity.
Qed.

(** C6: when the three list options decode and the guard
    [!shouldInclude || shouldExclude] holds, the call returns the tree it
    was given, [comments] included; [traverse] is not reached. *)
Theorem C6_rejected_file_returned_unmodified :
  forall JSON_parse makeRe ast o P v1 inc v2 exc v3 al,
    decode JSON_parse (o_include o) = Ok (v1, inc) ->
    decode JSON_parse (o_exclude o) = Ok (v2, exc) ->
    decode JSON_parse (o_allowedErrorClasses o) = Ok (v3, al) ->
    (let po := mkPluginOptions (flag (o_highlightThrows o)) al
                 (flag (o_enforceAllowedClasses o)) inc exc in
     guard makeRe po P = Ok true) ->
    snd (processThrowStatements JSON_parse makeRe ast o P) = Ok ast.
Proof.
  intros * H1 H2 H3 Hskip.
  rewrite (process_decoded JSON_parse makeRe ast o P H1 H2 H3).
  cbn zeta in *. cbn [snd]. rewrite Hskip. reflexivity.
Qed.

Lemma C6_rejected_file_witness :
  snd (processThrowStatements Sample.parseKnown Sample.exact Sample.twoThrows
         (mkOptions (Some true) (Text Sample.textAB) (Some true)
            (Items ["a.ts"%string]) (Items ["a.ts"%string]))
         (Some "a.ts"%string)) = Ok Sample.twoThrows.
Proof.
  eapply C6_rejected_file_returned_unmodified; reflexivity.
Defined.

(** ** Option decoding *)

Section DecodeFacts.
Variable JSON_parse : string -> Result Json.
Variable makeRe : Json -> Result (string -> bool).
Variables (ast : Node) (o : ThrowErrorOptions) (P : option string).

Lemma decode_text s :
  decode JSON_parse (Text s) = (j <- JSON_parse s ;; Ok (Value j, Some j)).
Proof. reflexivity. Qed.

Lemma decode_not_text v :
  isText v = false ->
  decode JSON_parse v
  = Ok (v, match v with
           | Absent => Some (JArray [])
           | Undefined => None
           | Value j => Some j
           end).
Proof.
  destruct v as [| |[]]; cbn; try discriminate; reflexivity.
Qed.

Lemma include_error s e :
  JSON_parse s = Throw e ->
  o_include o = Text s ->
  processThrowStatements JSON_parse makeRe ast o P = (o, Throw e).
Proof.
  intros H Hi. unfold processThrowStatements. rewrite Hi, decode_text, H.
  reflexivity.
Qed.

Lemma exclude_error s e v1 inc :
  JSON_parse s = Throw e ->
  decode JSON_parse (o_include o) = Ok (v1, inc) ->
  o_exclude o = Text s ->
  processThrowStatements JSON_parse makeRe ast o P
  = (setInclude v1 o, Throw e).
Proof.
  intros H H1 Hx. unfold processThrowStatements. rewrite H1.
  cbn [setInclude o_exclude]. rewrite Hx, decode_text, H. reflexivity.
Qed.

Lemma allowedErrorClasses_error s e v1 inc v2 exc :
  JSON_parse s = Throw e ->
  decode JSON_parse (o_include o) = Ok (v1, inc) ->
  decode JSON_parse (o_exclude o) = Ok (v2, exc) ->
  o_allowedErrorClasses o = Text s ->
  processThrowStatements JSON_parse makeRe ast o P
  = (setExclude v2 (setInclude v1 o), Throw e).
Proof.
  intros H H1 H2 Ha. unfold processThrowStatements. rewrite H1.
  cbn [setInclude o_exclude]. rewrite H2.
  cbn [setExclude setInclude o_allowedErrorClasses].
  rewrite Ha, decode_text, H. reflexivity.
Qed.

(** A failed [decode] is a text that [JSON.parse] rejects. *)
Lemma decode_error v e :
  decode JSON_parse v = Throw e ->
  exists s, v = Text s /\ JSON_parse s = Throw e.
Proof.
  destruct v as [| |[| | |s| |]]; cbn; try discriminate.
  destruct (JSON_parse s) eqn:E; cbn; try discriminate.
  intros [= <-]. exists s. split; [reflexivity|exact E].
Qed.

(** A [decode] that succeeds on a text replaced it by the value of the
    text; on anything else it changed nothing. *)
Lemma decode_ok v v' r :
  decode JSON_parse v = Ok (v', r) ->
  (forall s, v = Text s ->
             exists j, JSON_parse s = Ok j /\ v' = Value j /\ r = Some j)
  /\ (isText v = false -> v' = v).
Proof.
  intros H. split.
  - intros s ->. rewrite decode_text in H.
    destruct (JSON_parse s) as [j|]; cbn in H; [|discriminate].
    injection H as <- <-. exists j. auto.
  - intros Ht. rewrite (decode_not_text _ Ht) in H. now injection H.
Qed.

End DecodeFacts.




(** C10: decoding comes first.  When a textual list option does not
    decode, the call raises the exception of such an option, whatever
    the file path and the patterns are; the tree is not returned. *)
Theorem C10_decode_error_precedes_filter :
  forall JSON_parse makeRe ast o P s e,
    (o_include o = Text s \/ o_exclude o = Text s
     \/ o_allowedErrorClasses o = Text s) ->
    JSON_parse s = Throw e ->
    exists s' e',
      (o_include o = Text s' \/ o_exclude o = Text s'
       \/ o_allowedErrorClasses o = Text s')
      /\ JSON_parse s' = Throw e'
      /\ snd (processThrowStatements JSON_parse makeRe ast o P) = Throw e'.
Proof.
  intros * Hs He.
  destruct (decode JSON_parse (o_include o)) as [[v1 inc]|e1] eqn:D1.
  2:{ destruct (decode_error _ _ D1) as (s1 & E1 & P1).
      exists s1, e1. repeat split; auto.
      now erewrite include_error by eauto. }
  destruct (decode JSON_parse (o_exclude o)) as [[v2 exc]|e2] eqn:D2.
  2:{ destruct (decode_error _ _ D2) as (s2 & E2 & P2).
      exists s2, e2. repeat split; auto.
      now erewrite exclude_error by eauto. }
  destruct Hs as [Hs|[Hs|Hs]].
  - rewrite Hs, decode_text, He in D1. discriminate D1.
  - rewrite Hs, decode_text, He in D2. discriminate D2.
  - exists s, e. repeat split; auto.
    now erewrite allowedErrorClasses_error by eauto.
Qed.

Lemma C10_decode_error_witness :
  exists s' e',
    (Items ["b.ts"%string] = Text s' \/ Text "not json"%string = Text s'
     \/ Items [] = Text s')
    /\ Sample.parseKnown s' = Throw e'
    /\ snd (processThrowStatements Sample.parseKnown Sample.exact
              Sample.twoThrows
              (mkOptions None (Items []) None (Items ["b.ts"%string])
                 (Text "not json"))
              (Some "a.ts"%string)) = Throw e'.
Proof.
  apply (C10_decode_error_precedes_filter Sample.parseKnown Sample.exact
           Sample.twoThrows
           (mkOptions None (Items []) None (Items ["b.ts"%string])
              (Text "not json"))
           (Some "a.ts"%string) (s := "not json"%string) (e := SyntaxError)).
  - right; left; reflexivity.
  - reflexivity.
Defined.

(** ** The caller's options object *)

Lemma fst_processThrowStatements JSON_parse makeRe ast o P :
  fst (processThrowStatements JSON_parse makeRe ast o P) =
  match decode JSON_parse (o_include o) with
  | Throw _ => o
  | Ok (v1, _) =>
      match decode JSON_parse (o_exclude o) with
      | Throw _ => setInclude v1 o
      | Ok (v2, _) =>
          match decode JSON_parse (o_allowedErrorClasses o) with
          | Throw _ => setExclude v2 (setInclude v1 o)
          | Ok (v3, _) =>
              setAllowedErrorClasses v3 (setExclude v2 (setInclude v1 o))
          end
      end
  end.
Proof.
  unfold processThrowStatements.
  destruct (decode JSON_parse (o_include o)) as [[v1 inc]|]; [|reflexivity].
  cbn [setInclude o_exclude].
  destruct (decode JSON_parse (o_exclude o)) as [[v2 exc]|]; [|reflexivity].
  cbn [setExclude setInclude o_allowedErrorClasses].
  destruct (decode JSON_parse (o_allowedErrorClasses o)) as [[v3 al]|];
    reflexivity.
Qed.

(** C9 as the specification states it fails: the three assignments
    [options.x = JSON.parse(options.x)] write into the caller's object. *)
Lemma C9_options_object_is_modified :
  ~ (forall JSON_parse makeRe ast o P,
        fst (processThrowStatements JSON_parse makeRe ast o P) = o).
Proof.
  intros H.
  specialize (H Sample.parseKnown Sample.exact Sample.twoThrows
                (mkOptions None (Text "[]") None (Text "[]") (Text "[]"))
                (Some "a.ts"%string)).
  discriminate H.
Qed.

(** C9, amended: what the call leaves in the caller's object.  The two
    boolean options are never touched, and an option that is not text is
    never touched.  A textual [include] is replaced by the value it
    decodes to; when it does not decode, the object is left as it was.
    When [include] was decoded or was no text, a textual [exclude] is
    replaced by the value it decodes to; when it does not decode, it and
    [allowedErrorClasses] stay as they were.  When both were decoded or
    were no text, a textual [allowedErrorClasses] is replaced by the
    value it decodes to, and stays as it was when it does not decode. *)
Theorem C9_options_object_after_call :
  forall JSON_parse makeRe ast o P,
    let o' := fst (processThrowStatements JSON_parse makeRe ast o P) in
    (o_highlightThrows o' = o_highlightThrows o
     /\ o_enforceAllowedClasses o' = o_enforceAllowedClasses o)
    /\ ((forall s j, o_include o = Text s -> JSON_parse s = Ok j ->
                     o_include o' = Value j)
        /\ (forall s e, o_include o = Text s -> JSON_parse s = Throw e ->
                        o' = o)
        /\ (isText (o_include o) = false -> o_include o' = o_include o))
    /\ ((forall s j, decodes JSON_parse (o_include o) = true ->
                     o_exclude o = Text s -> JSON_parse s = Ok j ->
                     o_exclude o' = Value j)
        /\ (forall s e, o_exclude o = Text s -> JSON_parse s = Throw e ->
                        o_exclude o' = o_exclude o
                        /\ o_allowedErrorClasses o'
                           = o_allowedErrorClasses o)
        /\ (isText (o_exclude o) = false -> o_exclude o' = o_exclude o))
    /\ ((forall s j, decodes JSON_parse (o_include o) = true ->
                     decodes JSON_parse (o_exclude o) = true ->
                     o_allowedErrorClasses o = Text s ->
                     JSON_parse s = Ok j ->
                     o_allowedErrorClasses o' = Value j)
        /\ (forall s e, o_allowedErrorClasses o = Text s ->
                        JSON_parse s = Throw e ->
                        o_allowedErrorClasses o' = o_allowedErrorClasses o)
        /\ (isText (o_allowedErrorClasses o) = false ->
            o_allowedErrorClasses o' = o_allowedErrorClasses o))
    /\ (isText (o_include o) || isText (o_exclude o)
        || isText (o_allowedErrorClasses o) = false -> o' = o).
Proof.
  intros. subst o'. rewrite fst_processThrowStatements.
  destruct (decode JSON_parse (o_include o)) as [[v1 inc]|e1] eqn:D1.
  2:{ destruct (decode_error _ _ D1) as (s1 & E1 & P1).
      assert (Hd : decodes JSON_parse (o_include o) = false)
        by (rewrite E1; cbn; now rewrite P1).
      unfold Text in *.
      repeat split; auto; try congruence; intros; congruence. }
  destruct (@decode_ok _ _ _ _ D1) as [T1 N1].
  destruct (decode JSON_parse (o_exclude o)) as [[v2 exc]|e2] eqn:D2.
  2:{ destruct (decode_error _ _ D2) as (s2 & E2 & P2).
      assert (Hd : decodes JSON_parse (o_exclude o) = false)
        by (rewrite E2; cbn; now rewrite P2).
      unfold Text in *.
      repeat split; cbn; auto; try congruence; intros;
        try match goal with
            | Hs : o_include o = _ |- _ =>
                destruct (T1 _ Hs) as (j' & Hj' & -> & _)
            end; try congruence.
      match goal with
      | Ht : _ || _ || _ = false |- _ =>
          apply orb_false_elim in Ht as [Ht _];
          apply orb_false_elim in Ht as [_ Ht];
          rewrite E2 in Ht; discriminate Ht
      end. }
  destruct (@decode_ok _ _ _ _ D2) as [T2 N2].
  destruct (decode JSON_parse (o_allowedErrorClasses o))
    as [[v3 al]|e3] eqn:D3.
  2:{ destruct (decode_error _ _ D3) as (s3 & E3 & P3).
      unfold Text in *.
      repeat split; cbn; auto; try congruence; intros;
        try match goal with
            | Hs : o_include o = _ |- _ =>
                destruct (T1 _ Hs) as (j' & Hj' & -> & _)
            | Hs : o_exclude o = _ |- _ =>
                destruct (T2 _ Hs) as (j' & Hj' & -> & _)
            end; try congruence.
      match goal with
      | Ht : _ || _ || _ = false |- _ =>
          apply orb_false_elim in Ht as [_ Ht];
          rewrite E3 in Ht; discriminate Ht
      end. }
  destruct (@decode_ok _ _ _ _ D3) as [T3 N3].
  unfold Text in *.
  repeat split; cbn; auto; try congruence; intros;
    try match goal with
        | Hs : o_include o = _ |- _ =>
            destruct (T1 _ Hs) as (j' & Hj' & -> & _)
        | Hs : o_allowedErrorClasses o = _ |- _ =>
            destruct (T3 _ Hs) as (j' & Hj' & -> & _)
        | Hs : o_exclude o = _ |- _ =>
            destruct (T2 _ Hs) as (j' & Hj' & -> & _)
        end; try congruence.
  match goal with
  | Ht : _ || _ || _ = false |- _ =>
      apply orb_false_elim in Ht as [Ht Ht3];
      apply orb_false_elim in Ht as [Ht1 Ht2];
      rewrite (N1 Ht1), (N2 Ht2), (N3 Ht3); destruct o; reflexivity
  end.
Qed.

Lemma C9_options_object_witness :
  o_include
    (fst (processThrowStatements Sample.parseKnown Sample.exact
            Sample.twoThrows
            (mkOptions (Some true) (Text Sample.textFoo) None
               (Text Sample.textAB) (Text "[]"))
            (Some "a.ts"%string)))
  = Items ["A"; "B"]%string
  /\ o_exclude
       (fst (processThrowStatements Sample.parseKnown Sample.exact
               Sample.twoThrows
               (mkOptions (Some true) (Text Sample.textFoo) None
                  (Text Sample.textAB) (Text "[]"))
               (Some "a.ts"%string)))
     = Items []
  /\ o_allowedErrorClasses
       (fst (processThrowStatements Sample.parseKnown Sample.exact
               Sample.twoThrows
               (mkOptions (Some true) (Text Sample.textFoo) None
                  (Text Sample.textAB) (Text "[]"))
               (Some "a.ts"%string)))
     = Value (JString "Foo")
  /\ fst (processThrowStatements Sample.parseKnown Sample.exact
            Sample.twoThrows
            (mkOptions (Some true) (Items ["A"%string]) None Absent
               Undefined)
            (Some "a.ts"%string))
     = mkOptions (Some true) (Items ["A"%string]) None Absent Undefined.
Proof.
  destruct (C9_options_object_after_call Sample.parseKnown Sample.exact
              Sample.twoThrows
              (mkOptions (Some true) (Text Sample.textFoo) None
                 (Text Sample.textAB) (Text "[]"))
              (Some "a.ts"%string))
    as (_ & (HI & _) & (HE & _) & (HA & _) & _).
  split; [|split; [|split]].
  - apply (HI Sample.textAB); reflexivity.
  - apply (HE "[]"%string); reflexivity.
  - apply (HA Sample.textFoo); reflexivity.
  - apply (C9_options_object_after_call Sample.parseKnown Sample.exact
             Sample.twoThrows
             (mkOptions (Some true) (Items ["A"%string]) None Absent
                Undefined)
             (Some "a.ts"%string)).
    reflexivity.
Defined.

(** A call that returns a tree decoded its options and then either
    skipped the file or ran [traverse]. *)
Lemma process_returns JSON_parse makeRe ast o P ast' :
  snd (processThrowStatements JSON_parse makeRe ast o P) = Ok ast' ->
  exists v1 inc v2 exc v3 al,
    decode JSON_parse (o_include o) = Ok (v1, inc)
    /\ decode JSON_parse (o_exclude o) = Ok (v2, exc)
    /\ decode JSON_parse (o_allowedErrorClasses o) = Ok (v3, al)
    /\ let po := mkPluginOptions (flag (o_highlightThrows o)) al
                   (flag (o_enforceAllowedClasses o)) inc exc in
       (guard makeRe po P = Ok true /\ ast' = ast)
       \/ (guard makeRe po P = Ok false /\ traverse po ast ast = Ok ast').
Proof.
  intros H.
  destruct (decode JSON_parse (o_include o)) as [[v1 inc]|e1] eqn:D1.
  2:{ destruct (decode_error _ _ D1) as (s1 & E1 & P1).
      rewrite (@include_error JSON_parse makeRe ast o P s1 e1 P1 E1) in H.
      discriminate H. }
  destruct (decode JSON_parse (o_exclude o)) as [[v2 exc]|e2] eqn:D2.
  2:{ destruct (decode_error _ _ D2) as (s2 & E2 & P2).
      rewrite (@exclude_error JSON_parse makeRe ast o P s2 e2 v1 inc
                 P2 D1 E2) in H.
      discriminate H. }
  destruct (decode JSON_parse (o_allowedErrorClasses o))
    as [[v3 al]|e3] eqn:D3.
  2:{ destruct (decode_error _ _ D3) as (s3 & E3 & P3).
      rewrite (@allowedErrorClasses_error JSON_parse makeRe ast o P s3 e3
                 v1 inc v2 exc P3 D1 D2 E3) in H.
      discriminate H. }
  exists v1, inc, v2, exc, v3, al. repeat split.
  rewrite (process_decoded JSON_parse makeRe ast o P D1 D2 D3) in H.
  cbn zeta in *. cbn [snd] in H.
  destruct (guard makeRe _ P) as [[|]|]; cbn in H; try discriminate H.
  - left. split; [reflexivity|]. now injection H.
  - right. auto.
Qed.

(** ** Classification of the thrown expression *)






Lemma processThrow_allowed pluginOptions node ast :
  isAllowedErrorClass node (allowedErrorClasses pluginOptions) = Ok true ->
  processThrow pluginOptions node ast =
  Ok (if highlightThrows pluginOptions
      then attachUnlessPresent ast (highlightComment node) else ast).
Proof.
  intros Hd. unfold processThrow. rewrite Hd.
  destruct (enforceAllowedClasses pluginOptions); reflexivity.
Qed.

(** [new <name>(...)] with a callee that has a non-empty string [name]:
    the answer of [includes]. *)
Lemma isAllowedErrorClass_new node allowed arg callee name :
  lookupField "argument" (children node) = Some arg ->
  type arg = "NewExpression"%string ->
  lookupAttr "callee" (attrs arg) = None ->
  lookupField "callee" (children arg) = Some callee ->
  lookupAttr "name" (attrs callee) = Some (PStr name) ->
  name <> ""%string ->
  isAllowedErrorClass node allowed = includes allowed (NPrim (PStr name)).
Proof.
  intros Harg Hty Hprim Hcallee Hname Hne. unfold isAllowedErrorClass.
  rewrite Harg, Hty, Hprim, Hcallee, Hname. cbn.
  apply String.eqb_neq in Hne. rewrite Hne. reflexivity.
Qed.


(** The cases listed with the rule: [throw new Foo()] against the lists
    [["Foo"]] and [["Bar"]], [throw err], and [throw "oops"]. *)
Lemma classification_examples :
  isAllowedErrorClass SampleThrows.throwFoo (Some (strings ["Foo"%string]))
  = Ok true
  /\ isAllowedErrorClass SampleThrows.throwFoo
       (Some (strings ["Bar"%string])) = Ok false
  /\ isAllowedErrorClass SampleThrows.throwErr (Some (strings [])) = Ok true
  /\ isAllowedErrorClass SampleThrows.throwOops
       (Some (strings ["Error"%string])) = Ok false
  /\ c_value (warningComment (String.concat ", " ["Bar"; "Baz"]%string)
                SampleThrows.throwFoo)
     = " WARNING: Only throw instances of: Bar, Baz "%string.
Proof. repeat split. Qed.

(** C4: a throw statement whose argument is a bare identifier is allowed
    whatever [allowedErrorClasses] holds (a list, any other value, or
    nothing at all), and under enforcement the statement gets no warning
    comment: all that [traverse] does there is the highlighting step. *)
Theorem C4_identifier_always_allowed :
  forall (node arg : Node) (allowed : option Json),
    lookupField "argument" (children node) = Some arg ->
    type arg = "Identifier"%string ->
    isAllowedErrorClass node allowed = Ok true
    /\ forall pluginOptions ast,
        allowedErrorClasses pluginOptions = allowed ->
        processThrow pluginOptions node ast
        = Ok (if highlightThrows pluginOptions
              then attachUnlessPresent ast (highlightComment node)
              else ast).
Proof.
  intros node arg allowed Harg Hty.
  assert (H : isAllowedErrorClass node allowed = Ok true).
  { unfold isAllowedErrorClass. rewrite Harg, Hty. reflexivity. }
  split; [exact H|].
  intros po ast <-. now apply processThrow_allowed.
Qed.

Lemma C4_identifier_witness :
  isAllowedErrorClass SampleThrows.throwErr (Some (strings [])) = Ok true
  /\ processThrow (SampleThrows.enforcing []) SampleThrows.throwErr
       Sample.twoThrows = Ok Sample.twoThrows.
Proof.
  destruct (@C4_identifier_always_allowed SampleThrows.throwErr
              (Sample.identifier "err" (23, 26) 4) (Some (strings []))
              eq_refl eq_refl) as [H1 H2].
  split; [exact H1|].
  apply (H2 (SampleThrows.enforcing []) Sample.twoThrows eq_refl).
Defined.

(** ** Induction over trees and the equations of the walks *)

Lemma Node_induction (P : Node -> Prop) :
  (forall ty lc rg cm at_ kids,
      Forall (fun sc => P (snd sc)) kids ->
      P (MkNode ty lc rg cm at_ kids)) ->
  forall n, P n.
Proof.
  intros step. fix IH 1. intros [ty lc rg cm at_ kids].
  apply step. induction kids as [|[s child] kids IHk].
  - constructor.
  - constructor; [exact (IH child)|exact IHk].
Qed.

Lemma traverseWith_eq {St} (visit : Node -> St -> Result St) node st :
  traverseWith visit node st =
  if hasKey "start" node then Ok st
  else
    st1 <- (if (type node =? "ThrowStatement")%string
            then visit node st else Ok st) ;;
    traverseEach visit (children node) st1.
Proof. destruct node; reflexivity. Qed.

Lemma walk_eq c node :
  walk c node =
  if fst (c_range c) <=? fst (range node) then Some ([], (true, false))
  else
    match firstLanding (sortByKey (@fst Z _) (walkEach c 0 (children node)))
    with
    | Some (i, (p, fl)) => Some (i :: p, fl)
    | None =>
        if fst (c_range c) <=? snd (range node)
        then Some ([], (false, negb (length (children node) =? 0)%nat))
        else None
    end.
Proof. destruct node; reflexivity. Qed.

Lemma throwPaths_eq node :
  throwPaths node =
  if hasKey "start" node then []
  else
    ((if (type node =? "ThrowStatement")%string then [[]] else [])
     ++ throwPathsEach 0 (children node))%list.
Proof. destruct node; reflexivity. Qed.

Lemma visited_eq node :
  visited node =
  if hasKey "start" node then []
  else
    ((if (type node =? "ThrowStatement")%string then [node] else [])
     ++ flat_map (fun sc => visited (snd sc)) (children node))%list.
Proof. destruct node; reflexivity. Qed.

Lemma visitAll_app {St} (visit : Node -> St -> Result St) l1 l2 st :
  visitAll visit (l1 ++ l2) st =
  st' <- visitAll visit l1 st ;; visitAll visit l2 st'.
Proof.
  revert st. induction l1 as [|n l1 IH]; intros st; cbn; [reflexivity|].
  destruct (visit n st); cbn; auto.
Qed.

(** [traverse] does its work at the nodes of [visited], in that order. *)
Lemma traverseWith_visited {St} (visit : Node -> St -> Result St) node :
  forall st, traverseWith visit node st = visitAll visit (visited node) st.
Proof.
  induction node as [ty lc rg cm at_ kids IH] using Node_induction.
  intros st. rewrite traverseWith_eq, visited_eq.
  destruct (hasKey _ _); [reflexivity|].
  rewrite visitAll_app. cbn [type children].
  assert (Hk : forall st1,
             traverseEach visit kids st1 =
             visitAll visit (flat_map (fun sc => visited (snd sc)) kids) st1).
  { induction kids as [|[s child] kids IHk]; intros st1; [reflexivity|].
    cbn. rewrite visitAll_app.
    inversion IH as [|? ? Hc Hrest]; subst. cbn in Hc. rewrite Hc.
    destruct (visitAll visit (visited child) st1); cbn; auto. }
  destruct (ty =? "ThrowStatement")%string; cbn.
  - destruct (visit _ st); cbn; auto.
  - apply Hk.
Qed.

(** ** The positions of the throw statements *)

Lemma nodesAt_app ps qs node :
  nodesAt (ps ++ qs) node = (nodesAt ps node ++ nodesAt qs node)%list.
Proof.
  induction ps as [|p ps IH]; cbn; [reflexivity|].
  destruct (nodeAt p node); cbn; now rewrite IH.
Qed.

Lemma nodesAt_map_cons i ps node sc :
  nth_error (children node) i = Some sc ->
  nodesAt (map (cons i) ps) node = nodesAt ps (snd sc).
Proof.
  intros H. induction ps as [|p ps IH]; cbn; [reflexivity|].
  rewrite H, IH. reflexivity.
Qed.

Lemma throwPathsEach_In i l p :
  In p (throwPathsEach i l) <->
  exists k sc q,
    nth_error l k = Some sc /\ p = (i + k)%nat :: q
    /\ In q (throwPaths (snd sc)).
Proof.
  revert i. induction l as [|[s child] l IH]; intros i; cbn.
  - split; [tauto|]. intros (k & sc & q & H & _). destruct k; discriminate.
  - rewrite in_app_iff, in_map_iff, IH. split.
    + intros [(q & <- & Hq)|(k & sc & q & Hn & -> & Hq)].
      * exists 0%nat, (s, child), q. rewrite Nat.add_0_r. auto.
      * exists (S k), sc, q. rewrite Nat.add_succ_r. auto.
    + intros (k & sc & q & Hn & -> & Hq). destruct k as [|k]; cbn in Hn.
      * injection Hn as <-. left. exists q. rewrite Nat.add_0_r. auto.
      * right. exists k, sc, q. rewrite Nat.add_succ_r. auto.
Qed.

Lemma nodesAt_throwPathsEach node :
  Forall (fun sc => nodesAt (throwPaths (snd sc)) (snd sc) = visited (snd sc))
    (children node) ->
  nodesAt (throwPathsEach 0 (children node)) node
  = flat_map (fun sc => visited (snd sc)) (children node).
Proof.
  intros HF.
  assert (G : forall l i,
    (forall k sc, nth_error l k = Some sc ->
                  nth_error (children node) (i + k) = Some sc) ->
    Forall (fun sc => nodesAt (throwPaths (snd sc)) (snd sc) = visited (snd sc)) l ->
    nodesAt (throwPathsEach i l) node
    = flat_map (fun sc => visited (snd sc)) l).
  { induction l as [|[s child] l IH]; intros i Hn Hl; [reflexivity|].
    cbn. rewrite nodesAt_app. inversion Hl as [|? ? Hc Hrest]; subst.
    rewrite (@nodesAt_map_cons i _ node (s, child)).
    2:{ specialize (Hn 0%nat (s, child) eq_refl).
        now rewrite Nat.add_0_r in Hn. }
    cbn [snd] in *. rewrite Hc. f_equal. apply IH; [|assumption].
    intros k sc Hk. rewrite Nat.add_succ_l, <- Nat.add_succ_r.
    apply Hn. exact Hk. }
  apply G; [intros k sc Hk; exact Hk|assumption].
Qed.

Lemma nodesAt_throwPaths node :
  nodesAt (throwPaths node) node = visited node.
Proof.
  induction node as [ty lc rg cm at_ kids IH] using Node_induction.
  rewrite throwPaths_eq, visited_eq.
  destruct (hasKey _ _); [reflexivity|].
  rewrite nodesAt_app. f_equal.
  - cbn [type]. destruct (ty =? "ThrowStatement")%string; reflexivity.
  - apply nodesAt_throwPathsEach. exact IH.
Qed.

Lemma NoDup_append {A} (l1 l2 : list A) :
  NoDup l1 -> NoDup l2 -> (forall a, In a l1 -> ~ In a l2) ->
  NoDup (l1 ++ l2).
Proof.
  intros H1 H2 Hd. induction H1 as [|a l1 Ha H1 IH]; cbn; [assumption|].
  constructor.
  - rewrite in_app_iff. intros [H|H]; [contradiction|].
    exact (Hd a (or_introl eq_refl) H).
  - apply IH. intros b Hb. apply Hd. now right.
Qed.

Lemma NoDup_map_cons (i : nat) (ps : list (list nat)) :
  NoDup ps -> NoDup (map (cons i) ps).
Proof.
  induction 1 as [|p ps Hp H IH]; cbn; constructor; [|assumption].
  rewrite in_map_iff. intros (q & [= <-] & Hq). contradiction.
Qed.

Lemma NoDup_throwPathsEach l :
  Forall (fun sc => NoDup (throwPaths (snd sc))) l ->
  forall i, NoDup (throwPathsEach i l).
Proof.
  induction 1 as [|[s child] l Hc Hl IH]; intros i; cbn; [constructor|].
  apply NoDup_append.
  - now apply NoDup_map_cons.
  - apply IH.
  - intros p Hp Hq. apply in_map_iff in Hp as (q & <- & _).
    apply throwPathsEach_In in Hq as (k & sc & q' & _ & [= E _] & _). lia.
Qed.

Lemma NoDup_throwPaths node : NoDup (throwPaths node).
Proof.
  induction node as [ty lc rg cm at_ kids IH] using Node_induction.
  rewrite throwPaths_eq. destruct (hasKey _ _); [constructor|].
  apply NoDup_append.
  - destruct (_ =? _)%string; repeat constructor. intros [].
  - now apply NoDup_throwPathsEach.
  - intros p Hp Hq. apply throwPathsEach_In in Hq as (k & sc & q & _ & -> & _).
    destruct (_ =? _)%string; cbn in Hp; [|tauto].
    destruct Hp as [Hp|[]]. discriminate Hp.
Qed.

Lemma throwPaths_In node :
  startFree node = true ->
  forall p,
    In p (throwPaths node) <->
    exists n, nodeAt p node = Some n /\ type n = "ThrowStatement"%string.
Proof.
  induction node as [ty lc rg cm at_ kids IH] using Node_induction.
  intros Hsf p. rewrite throwPaths_eq.
  cbn [startFree] in Hsf. apply andb_true_iff in Hsf as [Hs Hk].
  apply negb_true_iff in Hs. rewrite Hs.
  rewrite forallb_forall in Hk. rewrite Forall_forall in IH.
  rewrite in_app_iff, throwPathsEach_In. cbn [type children]. split.
  - intros [Hp|(k & sc & q & Hn & -> & Hq)].
    + destruct (ty =? "ThrowStatement")%string eqn:E; cbn in Hp; [|tauto].
      destruct Hp as [<-|[]]. eexists. split; [reflexivity|].
      now apply String.eqb_eq.
    + cbn. rewrite Hn. apply nth_error_In in Hn.
      apply (IH sc Hn (Hk sc Hn)). exact Hq.
  - intros (n & Hn & Ht). destruct p as [|i q]; cbn in Hn.
    + injection Hn as <-. cbn in Ht. left.
      apply String.eqb_eq in Ht. rewrite Ht. now left.
    + right. destruct (nth_error kids i) as [sc|] eqn:E; [|discriminate].
      exists i, sc, q. repeat split; auto.
      apply nth_error_In in E as Hin.
      apply (IH sc Hin (Hk sc Hin)). eauto.
Qed.

(** C5: in a tree none of whose nodes has a [start] property, the walk
    does its work at the nodes at the positions [throwPaths]; no position
    occurs twice, and a position is among them exactly when the node there
    is a throw statement, at whatever depth.  So every throw statement is
    considered once, in the order of the walk, up to the first
    exception. *)
Theorem C5_every_throw_visited_once :
  forall (St : Type) (visit : Node -> St -> Result St) (root : Node) (st : St),
    startFree root = true ->
    NoDup (throwPaths root)
    /\ (forall p,
          In p (throwPaths root) <->
          exists n, nodeAt p root = Some n
                    /\ type n = "ThrowStatement"%string)
    /\ traverseWith visit root st
       = visitAll visit (nodesAt (throwPaths root) root) st.
Proof.
  intros St visit root st Hsf. split; [apply NoDup_throwPaths|]. split.
  - now apply throwPaths_In.
  - rewrite nodesAt_throwPaths. apply traverseWith_visited.
Qed.

Lemma C5_every_throw_witness :
  NoDup (throwPaths Sample.twoThrows)
  /\ (forall p,
        In p (throwPaths Sample.twoThrows) <->
        exists n, nodeAt p Sample.twoThrows = Some n
                  /\ type n = "ThrowStatement"%string)
  /\ traverse (SampleThrows.enforcing []) Sample.twoThrows Sample.twoThrows
     = visitAll (processThrow (SampleThrows.enforcing []))
         (nodesAt (throwPaths Sample.twoThrows) Sample.twoThrows)
         Sample.twoThrows.
Proof.
  apply (@C5_every_throw_visited_once Node
           (processThrow (SampleThrows.enforcing []))
           Sample.twoThrows Sample.twoThrows).
  reflexivity.
Defined.

(** ** What does not depend on comments *)

Lemma strip_fields node :
  type (strip node) = type node /\ loc (strip node) = loc node
  /\ range (strip node) = range node /\ attrs (strip node) = attrs node
  /\ children (strip node)
     = map (fun sc => (fst sc, strip (snd sc))) (children node).
Proof. destruct node; cbn; auto. Qed.

Lemma hasKey_strip k node : hasKey k (strip node) = hasKey k node.
Proof.
  destruct node as [ty lc rg cm at_ kids]. unfold hasKey. cbn. f_equal.
  induction kids as [|[s child] kids IH]; cbn; [reflexivity|].
  now rewrite IH.
Qed.

Lemma strip_idempotent node : strip (strip node) = strip node.
Proof.
  induction node as [ty lc rg cm at_ kids IH] using Node_induction.
  cbn. f_equal. rewrite map_map. apply map_ext_Forall.
  eapply Forall_impl; [|exact IH]. intros [s child] H. cbn in *.
  now rewrite H.
Qed.


Lemma visited_strip node : visited (strip node) = map strip (visited node).
Proof.
  induction node as [ty lc rg cm at_ kids IH] using Node_induction.
  rewrite !visited_eq, hasKey_strip.
  destruct (hasKey _ _); [reflexivity|]. rewrite map_app.
  cbn [strip type children]. f_equal.
  - destruct (ty =? "ThrowStatement")%string; reflexivity.
  - induction IH as [|[s child] kids Hc Hk IHk]; cbn; [reflexivity|].
    cbn in Hc. now rewrite map_app, Hc, IHk.
Qed.

Lemma lookupField_strip k kids :
  lookupField k (map (fun sc => (fst sc, strip (snd sc))) kids)
  = option_map strip (lookupField k kids).
Proof.
  induction kids as [|[[k'|k' i] child] kids IH]; cbn; [reflexivity| |exact IH].
  destruct (k =? k')%string; [reflexivity|exact IH].
Qed.

Lemma nodeText_strip node : nodeText (strip node) = nodeText node.
Proof. unfold nodeText. now rewrite hasKey_strip. Qed.

Lemma nodeTexts_strip k kids :
  nodeTexts
    (filter (fun sc => (slotKey (fst sc) =? k)%string)
       (map (fun sc => (fst sc, strip (snd sc))) kids))
  = nodeTexts (filter (fun sc => (slotKey (fst sc) =? k)%string) kids).
Proof.
  induction kids as [|[s child] kids IH]; cbn; [reflexivity|].
  destruct (slotKey s =? k)%string; [|exact IH].
  cbn. now rewrite nodeText_strip, IH.
Qed.

Lemma objectText_strip k node :
  objectText k (strip node) = objectText k node.
Proof.
  unfold objectText.
  destruct (strip_fields node) as (_ & _ & _ & _ & ->).
  rewrite lookupField_strip, nodeTexts_strip.
  destruct (lookupField k (children node)); cbn; [|reflexivity].
  apply nodeText_strip.
Qed.

Lemma isAllowedErrorClass_strip node allowed :
  isAllowedErrorClass (strip node) allowed = isAllowedErrorClass node allowed.
Proof.
  unfold isAllowedErrorClass.
  destruct (strip_fields node) as (_ & _ & _ & _ & ->).
  rewrite lookupField_strip.
  destruct (lookupField "argument" (children node)) as [arg|]; cbn;
    [|reflexivity].
  destruct (strip_fields arg) as (-> & _ & _ & -> & ->).
  rewrite lookupField_strip.
  destruct (lookupField "callee" (children arg)) as [callee|]; cbn;
    [|reflexivity].
  destruct (strip_fields callee) as (_ & _ & _ & -> & _).
  now rewrite hasKey_strip, objectText_strip.
Qed.

Lemma walkEach_strip c kids :
  Forall (fun sc => walk c (strip (snd sc)) = walk c (snd sc)) kids ->
  forall i,
    walkEach c i (map (fun sc => (fst sc, strip (snd sc))) kids)
    = walkEach c i kids.
Proof.
  induction 1 as [|[s child] kids Hc Hk IH]; intros i; cbn; [reflexivity|].
  cbn in Hc. rewrite Hc, IH.
  destruct (strip_fields child) as (_ & _ & -> & _). reflexivity.
Qed.

(** Where a comment lands depends on the tree without its comments
    only. *)
Lemma walk_strip c node : walk c (strip node) = walk c node.
Proof.
  induction node as [ty lc rg cm at_ kids IH] using Node_induction.
  rewrite !walk_eq. cbn [strip range children].
  rewrite (@walkEach_strip c kids IH), length_map. reflexivity.
Qed.

(** ** Assigning [comments] *)

Lemma map_updateNth {A B} (f : A -> B) (g : A -> A) i (l : list A) :
  (forall x, nth_error l i = Some x -> f (g x) = f x) ->
  map f (updateNth i g l) = map f l.
Proof.
  revert i. induction l as [|x l IH]; intros i H; [reflexivity|].
  destruct i as [|i]; cbn.
  - now rewrite (H x eq_refl).
  - f_equal. apply IH. intros y Hy. apply H. exact Hy.
Qed.

Lemma strip_setComments p v : forall node,
  strip (setComments p v node) = strip node.
Proof.
  induction p as [|i p IH]; intros [ty lc rg cm at_ kids]; cbn;
    [reflexivity|].
  f_equal. apply map_updateNth. intros [s child] _. cbn. now rewrite IH.
Qed.

Lemma strip_attachComments tree comment :
  strip (attachComments tree comment) = strip tree.
Proof.
  unfold attachComments. destruct (walk comment tree) as [[p fl]|];
    [apply strip_setComments|reflexivity].
Qed.

Lemma strip_attachUnlessPresent ast comment :
  strip (attachUnlessPresent ast comment) = strip ast.
Proof.
  unfold attachUnlessPresent. destruct (hasComment ast comment);
    [reflexivity|apply strip_attachComments].
Qed.

Lemma strip_processThrow pluginOptions node ast ast' :
  processThrow pluginOptions node ast = Ok ast' -> strip ast' = strip ast.
Proof.
  unfold processThrow. intros H.
  assert (H1 : strip (if highlightThrows pluginOptions
                      then attachUnlessPresent ast (highlightComment node)
                      else ast) = strip ast).
  { destruct (highlightThrows pluginOptions);
      [apply strip_attachUnlessPresent|reflexivity]. }
  destruct (enforceAllowedClasses pluginOptions).
  - destruct (isAllowedErrorClass node _) as [[|]|]; cbn in H;
      try discriminate H.
    + injection H as <-. exact H1.
    + destruct (join _) as [str|]; cbn in H; try discriminate H.
      injection H as <-. now rewrite strip_attachUnlessPresent.
  - injection H as <-. exact H1.
Qed.

Lemma visitAll_invariant {St} (visit : Node -> St -> Result St)
    (Inv : St -> Prop) :
  (forall n st st', visit n st = Ok st' -> Inv st -> Inv st') ->
  forall l st st', visitAll visit l st = Ok st' -> Inv st -> Inv st'.
Proof.
  intros step. induction l as [|n l IH]; intros st st' H Hi; cbn in H.
  - injection H as <-. exact Hi.
  - destruct (visit n st) as [st1|] eqn:E; cbn in H; [|discriminate H].
    eapply IH; eauto.
Qed.

Lemma strip_traverse pluginOptions node ast ast' :
  traverse pluginOptions node ast = Ok ast' -> strip ast' = strip ast.
Proof.
  unfold traverse. rewrite traverseWith_visited. intros H.
  apply (@visitAll_invariant _ (processThrow pluginOptions)
           (fun st => strip st = strip ast)) in H; auto.
  intros n st st' Hv Hs. rewrite <- Hs.
  eapply strip_processThrow; eauto.
Qed.


Lemma strip_eq_visited a b :
  strip a = strip b -> map strip (visited a) = map strip (visited b).
Proof.
  intros H. rewrite <- !visited_strip. now rewrite H.
Qed.

Lemma updateNth_ext {A} (f g : A -> A) i (l : list A) :
  (forall x, f x = g x) -> updateNth i f l = updateNth i g l.
Proof.
  intros H. revert i. induction l as [|x l IH]; intros [|i]; cbn;
    try reflexivity.
  - now rewrite H.
  - now rewrite IH.
Qed.

Lemma updateNth_twice {A} (f g : A -> A) i (l : list A) :
  updateNth i f (updateNth i g l) = updateNth i (fun x => f (g x)) l.
Proof.
  revert i. induction l as [|x l IH]; intros [|i]; cbn; try reflexivity.
  now rewrite IH.
Qed.

Lemma updateNth_swap {A} (f g : A -> A) i j (l : list A) :
  i <> j ->
  updateNth i f (updateNth j g l) = updateNth j g (updateNth i f l).
Proof.
  revert i j. induction l as [|x l IH]; intros [|i] [|j] H; cbn;
    try reflexivity.
  - contradiction.
  - rewrite IH; [reflexivity|]. intros ->. now apply H.
Qed.

Lemma setComments_overwrite p v w : forall node,
  setComments p v (setComments p w node) = setComments p v node.
Proof.
  induction p as [|i p IH]; intros [ty lc rg cm at_ kids]; cbn;
    [reflexivity|].
  f_equal. rewrite updateNth_twice. apply updateNth_ext.
  intros [s child]. cbn. now rewrite IH.
Qed.

Lemma setComments_swap p v q w : forall node,
  p <> q ->
  setComments p v (setComments q w node)
  = setComments q w (setComments p v node).
Proof.
  revert q. induction p as [|i p IH]; intros [|j q] [ty lc rg cm at_ kids] H;
    cbn; try reflexivity.
  - contradiction.
  - f_equal. destruct (Nat.eq_dec i j) as [->|Hij].
    + rewrite !updateNth_twice. apply updateNth_ext.
      intros [s child]. cbn. rewrite IH; [reflexivity|].
      intros ->. now apply H.
    + now apply updateNth_swap.
Qed.

Lemma comments_setComments_below i p v node :
  comments (setComments (i :: p) v node) = comments node.
Proof. destruct node; reflexivity. Qed.

Lemma assignAll_app l1 l2 tree :
  assignAll (l1 ++ l2) tree = assignAll l2 (assignAll l1 tree).
Proof. apply fold_left_app. Qed.

Lemma strip_assignAll l : forall tree, strip (assignAll l tree) = strip tree.
Proof.
  induction l as [|[p v] l IH]; intros tree; cbn; [reflexivity|].
  unfold assignAll in IH. rewrite IH. apply strip_setComments.
Qed.

(** An assignment makes an earlier assignment to the same node
    irrelevant. *)
Lemma assignAll_absorbs l p u v : forall tree,
  setComments p v (assignAll l (setComments p u tree))
  = setComments p v (assignAll l tree).
Proof.
  induction l as [|[q w] l IH]; intros tree; cbn.
  - apply setComments_overwrite.
  - change (assign ?t (q, w)) with (setComments q w t).
    destruct (list_eq_dec Nat.eq_dec q p) as [->|Hqp].
    + now rewrite setComments_overwrite.
    + rewrite setComments_swap by exact Hqp. apply IH.
Qed.

(** Doing the same assignments a second time changes nothing. *)
Lemma assignAll_twice l : forall tree,
  assignAll l (assignAll l tree) = assignAll l tree.
Proof.
  induction l as [|[p v] l IH] using rev_ind; intros tree; [reflexivity|].
  rewrite !assignAll_app. cbn. unfold assign. cbn [fst snd].
  rewrite assignAll_absorbs. now rewrite IH.
Qed.

(** ** Where the comment of a throw statement lands *)

Lemma insertByKey_Permutation {A} (key : A -> Z) x l :
  Permutation (insertByKey key x l) (x :: l).
Proof.
  induction l as [|y l IH]; cbn; [reflexivity|].
  destruct (key x <=? key y); [reflexivity|].
  rewrite IH. apply perm_swap.
Qed.


Lemma insertByKey_sorted {A} (key : A -> Z) x l :
  StronglySorted (fun a b => key a <= key b) l ->
  StronglySorted (fun a b => key a <= key b) (insertByKey key x l).
Proof.
  induction 1 as [|y l Hs IH Hy]; cbn.
  - repeat constructor.
  - destruct (key x <=? key y) eqn:E.
    + apply Z.leb_le in E. constructor; [now constructor|].
      constructor; [exact E|].
      eapply Forall_impl; [|exact Hy]. cbn. intros; lia.
    + apply Z.leb_gt in E. constructor; [exact IH|].
      eapply Permutation_Forall.
      * symmetry. apply insertByKey_Permutation.
      * constructor; [lia|exact Hy].
Qed.

Lemma sortByKey_sorted {A} (key : A -> Z) l :
  StronglySorted (fun a b => key a <= key b) (sortByKey key l).
Proof.
  induction l as [|x l IH]; cbn; [constructor|].
  now apply insertByKey_sorted.
Qed.

Lemma insertByKey_In {A} (key : A -> Z) x y l :
  In y (insertByKey key x l) <-> y = x \/ In y l.
Proof.
  induction l as [|z l IH]; cbn; [intuition|].
  destruct (key x <=? key z); cbn; [intuition|].
  rewrite IH. intuition.
Qed.

Lemma sortByKey_In {A} (key : A -> Z) y l :
  In y (sortByKey key l) <-> In y l.
Proof.
  induction l as [|x l IH]; cbn; [tauto|].
  rewrite insertByKey_In, IH. intuition.
Qed.

Lemma firstLanding_found l z i w :
  In (z, (i, Some w)) l -> firstLanding l <> None.
Proof.
  induction l as [|[z' [j [w'|]]] l IH]; cbn; [tauto|discriminate|].
  intros [H|H]; [discriminate H|auto].
Qed.

Lemma walkEach_In c sc l : forall i,
  In sc l ->
  exists j, In (fst (range (snd sc)), (j, walk c (snd sc))) (walkEach c i l).
Proof.
  induction l as [|[s child] l IH]; intros i; cbn; [tauto|].
  intros [<-|H].
  - exists i. now left.
  - destruct (IH (S i) H) as [j Hj]. exists j. now right.
Qed.

(** A comment that starts no later than a throw statement reached by
    [traverse] finds a node to land on. *)
Lemma walk_visited c T node :
  In T (visited node) ->
  fst (c_range c) <= fst (range T) ->
  walk c node <> None.
Proof.
  induction node as [ty lc rg cm at_ kids IH] using Node_induction.
  rewrite visited_eq, walk_eq. destruct (hasKey _ _); [intros []|].
  intros HT Hc. cbn [range children type] in *.
  destruct (fst (c_range c) <=? fst rg) eqn:E; [discriminate|].
  apply in_app_iff in HT as [HT|HT].
  - destruct (ty =? "ThrowStatement")%string; [|destruct HT].
    destruct HT as [<-|[]]. cbn in Hc. apply Z.leb_gt in E. lia.
  - apply in_flat_map in HT as (sc & Hsc & HT).
    rewrite Forall_forall in IH. specialize (IH sc Hsc HT Hc).
    destruct (walk c (snd sc)) as [w|] eqn:Ew; [|congruence].
    destruct (@walkEach_In c sc kids 0%nat Hsc) as [j Hj]. rewrite Ew in Hj.
    apply (sortByKey_In (@fst Z _)) in Hj.
    apply firstLanding_found in Hj.
    destruct (firstLanding _) as [[i [p fl]]|]; [discriminate|congruence].
Qed.

Lemma landsBelow_inside root T :
  In T (visited root) ->
  fst (range root) < fst (range T) ->
  landsBelow root T.
Proof.
  intros HT Hlt c Hc. rewrite walk_eq.
  assert (E : (fst (c_range c) <=? fst (range root)) = false).
  { apply Z.leb_gt. rewrite Hc. exact Hlt. }
  rewrite E.
  rewrite visited_eq in HT. destruct (hasKey _ _); [destruct HT|].
  apply in_app_iff in HT as [HT|HT].
  - destruct (_ =? _)%string; [|destruct HT]. destruct HT as [<-|[]]. lia.
  - apply in_flat_map in HT as (sc & Hsc & HT).
    assert (Hw : walk c (snd sc) <> None).
    { apply walk_visited with (T := T); [exact HT|]. rewrite Hc. lia. }
    destruct (walk c (snd sc)) as [w|] eqn:Ew; [|congruence].
    destruct (@walkEach_In c sc (children root) 0%nat Hsc) as [j Hj].
    rewrite Ew in Hj. apply (sortByKey_In (@fst Z _)) in Hj.
    apply firstLanding_found in Hj.
    destruct (firstLanding _) as [[i [p fl]]|]; [eauto|congruence].
Qed.

(** ** A pass as a sequence of assignments *)

Section PassAsAssignments.
Variable pluginOptions : PluginOptions.
Variable root : Node.

Lemma hasComment_same_comments a c :
  comments a = comments root -> hasComment a c = hasComment root c.
Proof. unfold hasComment. now intros ->. Qed.

Lemma walk_same_strip a c : strip a = strip root -> walk c a = walk c root.
Proof. intros H. now rewrite <- (walk_strip c a), H, walk_strip. Qed.

Lemma attachUnlessPresent_plan a c :
  strip a = strip root -> comments a = comments root ->
  attachUnlessPresent a c = assignAll (planComment root c) a.
Proof.
  intros Hs Hc. unfold attachUnlessPresent, planComment, attachComments.
  rewrite (@hasComment_same_comments a c Hc), (@walk_same_strip a c Hs).
  destruct (hasComment root c); [reflexivity|].
  destruct (walk c root) as [[p fl]|]; reflexivity.
Qed.

Lemma planComment_below T c :
  landsBelow root T -> c_range c = range T ->
  Forall (fun a => fst a <> []) (planComment root c).
Proof.
  intros HT Hc. unfold planComment.
  destruct (hasComment root c); [constructor|].
  destruct (HT c Hc) as (i & p & fl & ->). repeat constructor. discriminate.
Qed.

Lemma comments_assignAll l : forall a,
  Forall (fun x => fst x <> []) l -> comments (assignAll l a) = comments a.
Proof.
  induction l as [|[p v] l IH]; intros a H; [reflexivity|].
  inversion H as [|? ? Hp Hl]; subst. cbn in *.
  unfold assignAll in IH. rewrite IH by assumption. unfold assign. cbn.
  destruct p as [|i p]; [congruence|apply comments_setComments_below].
Qed.

Lemma planThrow_below T ops :
  landsBelow root T ->
  planThrow pluginOptions root T = Ok ops ->
  Forall (fun a => fst a <> []) ops.
Proof.
  intros HT. unfold planThrow.
  assert (Hh : Forall (fun a : list nat * list Comment => fst a <> [])
                 (if highlightThrows pluginOptions
                  then planComment root (highlightComment T) else [])).
  { destruct (highlightThrows pluginOptions); [|constructor].
    now apply planComment_below with (T := T). }
  destruct (enforceAllowedClasses pluginOptions).
  - destruct (isAllowedErrorClass T _) as [[|]|]; cbn; try discriminate.
    + now intros [= <-].
    + destruct (join _) as [str|]; cbn; try discriminate.
      intros [= <-]. apply Forall_app. split; [exact Hh|].
      now apply planComment_below with (T := T).
  - now intros [= <-].
Qed.

Lemma processThrow_plan T a :
  strip a = strip root -> comments a = comments root ->
  landsBelow root T ->
  processThrow pluginOptions T a =
  ops <- planThrow pluginOptions root T ;; Ok (assignAll ops a).
Proof.
  intros Hs Hc HT. unfold processThrow, planThrow.
  set (h := if highlightThrows pluginOptions
            then planComment root (highlightComment T) else []).
  assert (E1 : (if highlightThrows pluginOptions
                then attachUnlessPresent a (highlightComment T) else a)
               = assignAll h a).
  { subst h. destruct (highlightThrows pluginOptions); [|reflexivity].
    now apply attachUnlessPresent_plan. }
  rewrite E1.
  assert (Hb : Forall (fun x : list nat * list Comment => fst x <> []) h).
  { subst h. destruct (highlightThrows pluginOptions); [|constructor].
    now apply planComment_below with (T := T). }
  destruct (enforceAllowedClasses pluginOptions); [|reflexivity].
  destruct (isAllowedErrorClass T _) as [[|]|]; cbn; try reflexivity.
  destruct (join _) as [str|]; cbn; [|reflexivity].
  rewrite attachUnlessPresent_plan.
  - now rewrite assignAll_app.
  - now rewrite strip_assignAll.
  - now rewrite comments_assignAll.
Qed.

Lemma planAll_below l : forall ops,
  (forall T, In T l -> landsBelow root T) ->
  planAll pluginOptions root l = Ok ops ->
  Forall (fun a => fst a <> []) ops.
Proof.
  induction l as [|T l IH]; intros ops HT; cbn.
  - intros [= <-]. constructor.
  - destruct (planThrow pluginOptions root T) as [here|] eqn:E1; cbn;
      [|discriminate].
    destruct (planAll pluginOptions root l) as [rest|] eqn:E2; cbn;
      [|discriminate].
    intros [= <-]. apply Forall_app. split.
    + apply planThrow_below with (T := T); [apply HT; now left|exact E1].
    + apply IH; [intros T' H'; apply HT; now right|reflexivity].
Qed.

Lemma visitAll_plan l : forall a,
  strip a = strip root -> comments a = comments root ->
  (forall T, In T l -> landsBelow root T) ->
  visitAll (processThrow pluginOptions) l a =
  ops <- planAll pluginOptions root l ;; Ok (assignAll ops a).
Proof.
  induction l as [|T l IH]; intros a Hs Hc HT; cbn; [reflexivity|].
  rewrite processThrow_plan by (auto; apply HT; now left).
  destruct (planThrow pluginOptions root T) as [here|] eqn:E1; cbn;
    [|reflexivity].
  rewrite IH.
  - destruct (planAll pluginOptions root l) as [rest|]; cbn; [|reflexivity].
    now rewrite assignAll_app.
  - now rewrite strip_assignAll.
  - rewrite comments_assignAll; [exact Hc|].
    apply planThrow_below with (T := T); [apply HT; now left|exact E1].
  - intros T' H'. apply HT. now right.
Qed.

Lemma planThrow_same_strip T T' :
  strip T = strip T' ->
  planThrow pluginOptions root T = planThrow pluginOptions root T'.
Proof.
  intros H. unfold planThrow, highlightComment, warningComment.
  rewrite <- (isAllowedErrorClass_strip T), H, isAllowedErrorClass_strip.
  destruct (strip_fields T) as (_ & <- & <- & _).
  destruct (strip_fields T') as (_ & <- & <- & _).
  now rewrite H.
Qed.

Lemma planAll_same_strip l : forall l',
  map strip l = map strip l' ->
  planAll pluginOptions root l = planAll pluginOptions root l'.
Proof.
  induction l as [|T l IH]; intros [|T' l'] H; try discriminate H;
    [reflexivity|].
  injection H as HT Hl. cbn.
  now rewrite (@planThrow_same_strip T T' HT), (IH l' Hl).
Qed.

End PassAsAssignments.

(** ** A throw statement whose comments land on the root *)

Lemma hasComment_In ast c : hasComment ast c = hasCommentIn (comments ast) c.
Proof. reflexivity. Qed.

Lemma withRootComments_facts cs node :
  strip (withRootComments cs node) = strip node
  /\ comments (withRootComments cs node) = cs
  /\ withRootComments (comments node) node = node
  /\ (forall cs', withRootComments cs' (withRootComments cs node)
                  = withRootComments cs' node).
Proof. destruct node; cbn; auto. Qed.

Lemma walk_on_root t T a c :
  fst (range T) <= fst (range t) ->
  strip a = strip t ->
  c_range c = range T ->
  walk c a = Some ([], (true, false)).
Proof.
  intros Hle Hs Hc. rewrite walk_eq.
  destruct (strip_fields a) as (_ & _ & <- & _). rewrite Hs.
  destruct (strip_fields t) as (_ & _ & -> & _). rewrite Hc.
  apply Z.leb_le in Hle. now rewrite Hle.
Qed.

Lemma attachUnlessPresent_root t T a c :
  fst (range T) <= fst (range t) ->
  strip a = strip t ->
  c_range c = range T ->
  attachUnlessPresent a c = withRootComments (rootAttach (comments a) c) a.
Proof.
  intros Hle Hs Hc. unfold attachUnlessPresent, rootAttach, attachComments.
  rewrite hasComment_In, (@walk_on_root t T a c Hle Hs Hc).
  destruct (hasCommentIn (comments a) c); destruct a; reflexivity.
Qed.

Lemma processThrow_root pluginOptions t T a :
  fst (range T) <= fst (range t) ->
  strip a = strip t ->
  processThrow pluginOptions T a =
  cs <- rootStep pluginOptions T (comments a) ;; Ok (withRootComments cs a).
Proof.
  intros Hle Hs. unfold processThrow, rootStep.
  set (cs1 := if highlightThrows pluginOptions
              then rootAttach (comments a) (highlightComment T)
              else comments a).
  assert (E1 : (if highlightThrows pluginOptions
                then attachUnlessPresent a (highlightComment T) else a)
               = withRootComments cs1 a).
  { subst cs1. destruct (highlightThrows pluginOptions).
    - apply attachUnlessPresent_root with (t := t) (T := T);
        [assumption|assumption|reflexivity].
    - destruct a; reflexivity. }
  rewrite E1.
  destruct (withRootComments_facts cs1 a) as (Hs1 & Hc1 & _ & Hw).
  destruct (enforceAllowedClasses pluginOptions); [|reflexivity].
  destruct (isAllowedErrorClass T _) as [[|]|]; cbn; try reflexivity.
  destruct (join _) as [str|]; cbn; [|reflexivity].
  rewrite (@attachUnlessPresent_root t T (withRootComments cs1 a)
             (warningComment str T) Hle);
    [|now rewrite Hs1|reflexivity].
  now rewrite Hc1, Hw.
Qed.

(** A comment attached for a throw statement sits on the statement's own
    line, not on the line before it. *)
Lemma hasCommentIn_own_line c c' fl :
  c_loc c = c_loc c' ->
  hasCommentIn (Some [withFields c fl]) c' = false.
Proof.
  intros H. cbn. rewrite H.
  replace (_ =? _) with false; [reflexivity|].
  symmetry. apply Z.eqb_neq. lia.
Qed.

Lemma rootStep_twice pluginOptions T cs cs1 :
  rootStep pluginOptions T cs = Ok cs1 ->
  rootStep pluginOptions T cs1 = Ok cs1.
Proof.
  unfold rootStep.
  assert (Hh : forall x,
             rootAttach (rootAttach x (highlightComment T))
               (highlightComment T)
             = rootAttach x (highlightComment T)).
  { intros x. unfold rootAttach.
    destruct (hasCommentIn x _) eqn:E; [now rewrite E|].
    now rewrite hasCommentIn_own_line. }
  assert (Hw : forall x str,
             rootAttach (rootAttach x (warningComment str T))
               (warningComment str T)
             = rootAttach x (warningComment str T)).
  { intros x str. unfold rootAttach.
    destruct (hasCommentIn x _) eqn:E; [now rewrite E|].
    now rewrite hasCommentIn_own_line. }
  assert (Hhw : forall x str,
             rootAttach
               (rootAttach
                  (rootAttach (rootAttach x (highlightComment T))
                     (warningComment str T))
                  (highlightComment T))
               (warningComment str T)
             = rootAttach (rootAttach x (highlightComment T))
                 (warningComment str T)).
  { intros x str. unfold rootAttach.
    destruct (hasCommentIn x (highlightComment T)) eqn:E1.
    - destruct (hasCommentIn x (warningComment str T)) eqn:E2.
      + now rewrite E1, E2.
      + repeat (rewrite hasCommentIn_own_line by reflexivity; cbv iota).
        reflexivity.
    - repeat (rewrite hasCommentIn_own_line by reflexivity; cbv iota).
      reflexivity. }
  destruct (highlightThrows pluginOptions),
    (enforceAllowedClasses pluginOptions).
  - destruct (isAllowedErrorClass T _) as [[|]|]; cbn [bind];
      try discriminate.
    + intros [= <-]. now rewrite Hh.
    + destruct (join _) as [str|]; cbn [bind]; [|discriminate].
      intros [= <-]. now rewrite Hhw.
  - intros [= <-]. now rewrite Hh.
  - destruct (isAllowedErrorClass T _) as [[|]|]; cbn [bind];
      try discriminate.
    + now intros [= <-].
    + destruct (join _) as [str|]; cbn [bind]; [|discriminate].
      intros [= <-]. now rewrite Hw.
  - now intros [= <-].
Qed.

Lemma processThrow_same_strip pluginOptions T T' a :
  strip T = strip T' ->
  processThrow pluginOptions T a = processThrow pluginOptions T' a.
Proof.
  intros H. unfold processThrow, highlightComment, warningComment.
  rewrite <- (isAllowedErrorClass_strip T), H, isAllowedErrorClass_strip.
  destruct (strip_fields T) as (_ & <- & <- & _).
  destruct (strip_fields T') as (_ & <- & <- & _).
  now rewrite H.
Qed.

(** ** Running the annotator twice *)

Lemma landsBelow_same_strip r r' T T' :
  strip r = strip r' -> strip T = strip T' ->
  landsBelow r T -> landsBelow r' T'.
Proof.
  intros Hr HT H c Hc.
  assert (Hrange : range T' = range T).
  { destruct (strip_fields T) as (_ & _ & <- & _).
    destruct (strip_fields T') as (_ & _ & <- & _). now rewrite HT. }
  rewrite Hrange in Hc. destruct (H c Hc) as (i & p & fl & Hw).
  exists i, p, fl. rewrite <- Hw. symmetry. now apply walk_same_strip.
Qed.

Lemma In_same_strip (l l' : list Node) T' :
  map strip l' = map strip l -> In T' l' ->
  exists T, In T l /\ strip T = strip T'.
Proof.
  intros H HT. apply (in_map strip) in HT. rewrite H in HT.
  apply in_map_iff in HT as (T & E & HT). eauto.
Qed.

(** Throw statements whose comments land below the root [ref]: visiting
    them a second time, from the tree the first visits produced, changes
    nothing. *)
Lemma visitAll_twice pluginOptions ref l l' a a1 :
  strip a = strip ref -> comments a = comments ref ->
  (forall T, In T l -> landsBelow ref T) ->
  map strip l' = map strip l ->
  visitAll (processThrow pluginOptions) l a = Ok a1 ->
  visitAll (processThrow pluginOptions) l' a1 = Ok a1
  /\ strip a1 = strip ref /\ comments a1 = comments ref.
Proof.
  intros Hs Hc Hl Hll H1.
  rewrite (@visitAll_plan pluginOptions ref l a Hs Hc Hl) in H1.
  destruct (planAll pluginOptions ref l) as [ops|] eqn:Eops; cbn in H1;
    [|discriminate H1].
  injection H1 as <-.
  pose proof (@planAll_below pluginOptions ref l ops Hl Eops) as Hops.
  assert (Hs1 : strip (assignAll ops a) = strip ref)
    by now rewrite strip_assignAll.
  assert (Hc1 : comments (assignAll ops a) = comments ref)
    by now rewrite comments_assignAll.
  repeat split; auto.
  rewrite (@visitAll_plan pluginOptions ref l' (assignAll ops a) Hs1 Hc1).
  - rewrite (@planAll_same_strip pluginOptions ref l' l Hll), Eops. cbn.
    now rewrite assignAll_twice.
  - intros T' HT'. destruct (@In_same_strip l l' T' Hll HT') as (T & HT & E).
    apply (@landsBelow_same_strip ref ref T T' eq_refl E). now apply Hl.
Qed.

Lemma second_pass_inside pluginOptions t t1 :
  throwsStartInside t ->
  traverse pluginOptions t t = Ok t1 ->
  traverse pluginOptions t1 t1 = Ok t1
  /\ strip t1 = strip t /\ comments t1 = comments t.
Proof.
  intros Hin H1. unfold traverse in *. rewrite traverseWith_visited in *.
  assert (Hbelow : forall T, In T (visited t) -> landsBelow t T).
  { intros T HT. apply landsBelow_inside; auto. }
  assert (Hs : strip t1 = strip t).
  { apply (@visitAll_invariant _ (processThrow pluginOptions)
             (fun st => strip st = strip t)) in H1; auto.
    intros n st st' Hv Hst. rewrite <- Hst.
    eapply strip_processThrow; eauto. }
  apply (@visitAll_twice pluginOptions t (visited t) (visited t1) t t1);
    auto.
  now apply strip_eq_visited.
Qed.

(** C2, amended: in a tree in which every throw statement after the
    first one visited starts after the root does, as in every parsed
    program, a second pass returns the tree the first pass returned,
    hence the same comments.  The duplicate check has no part in it: when
    no throw statement starts where the root starts, the first pass leaves
    the root's [comments], which is all that [hasComment] reads, as they
    were, so the check answers in the second pass as it did in the first;
    the same comments are attached again, each assignment replacing a
    [comments] array by an equal one. *)
Theorem C2_second_pass_returns_same_tree :
  forall pluginOptions t t1,
    laterThrowsStartInside t ->
    traverse pluginOptions t t = Ok t1 ->
    traverse pluginOptions t1 t1 = Ok t1
    /\ (throwsStartInside t ->
        comments t1 = comments t
        /\ forall c, hasComment t1 c = hasComment t c).
Proof.
  intros po t t1 Hlater H1. split.
  2:{ intros Hin.
      destruct (@second_pass_inside po t t1 Hin H1) as (_ & _ & Hc).
      split; [exact Hc|]. intros c. unfold hasComment. now rewrite Hc. }
  destruct (visited t) as [|T1 rest] eqn:Ev.
  { unfold traverse in H1. rewrite traverseWith_visited, Ev in H1.
    injection H1 as <-. unfold traverse.
    now rewrite traverseWith_visited, Ev. }
  destruct (Z.lt_ge_cases (fst (range t)) (fst (range T1))) as [Hlt|Hge].
  { apply (@second_pass_inside po t t1); [|exact H1].
    intros T HT. rewrite Ev in HT. destruct HT as [<-|HT]; [exact Hlt|].
    apply Hlater. now rewrite Ev. }
  assert (Hs : strip t1 = strip t) by (eapply strip_traverse; eauto).
  unfold traverse in *. rewrite traverseWith_visited in *.
  rewrite Ev in H1. cbn [visitAll] in H1.
  rewrite (@processThrow_root po t T1 t Hge eq_refl) in H1.
  destruct (rootStep po T1 (comments t)) as [cs1|] eqn:Estep; cbn [bind] in H1;
    [|discriminate H1].
  destruct (withRootComments_facts cs1 t) as (Hs' & Hc' & _ & _).
  assert (Hrest : forall T, In T rest ->
                            landsBelow (withRootComments cs1 t) T).
  { intros T HT.
    apply (@landsBelow_same_strip t (withRootComments cs1 t) T T);
      [now rewrite Hs'|reflexivity|].
    apply landsBelow_inside.
    - rewrite Ev. now right.
    - apply Hlater. now rewrite Ev. }
  pose proof (@strip_eq_visited t1 t Hs) as Hv. rewrite Ev in Hv.
  destruct (visited t1) as [|T1x restx]; [discriminate Hv|].
  cbn [map] in Hv. injection Hv as HT1 Hrestx.
  destruct (@visitAll_twice po (withRootComments cs1 t) rest restx
              (withRootComments cs1 t) t1 eq_refl eq_refl Hrest Hrestx H1)
    as (Hagain & _ & Hc1).
  cbn [visitAll].
  rewrite (@processThrow_same_strip po T1x T1 t1 HT1).
  rewrite (@processThrow_root po t T1 t1 Hge Hs).
  rewrite Hc1, Hc', (@rootStep_twice po T1 (comments t) cs1 Estep). cbn [bind].
  rewrite <- Hc', <- Hc1.
  destruct (withRootComments_facts (comments t1) t1) as (_ & _ & -> & _).
  exact Hagain.
Qed.

Lemma startsWithThrow_later_inside : laterThrowsStartInside startsWithThrow.
Proof.
  intros T HT. cbn in HT. destruct HT as [<-|[]]; cbn; lia.
Qed.

Lemma C2_second_pass_witness :
  traverse SamplePass.both
    (SamplePass.pass SamplePass.both startsWithThrow)
    (SamplePass.pass SamplePass.both startsWithThrow)
  = Ok (SamplePass.pass SamplePass.both startsWithThrow).
Proof.
  eapply proj1.
  apply (@C2_second_pass_returns_same_tree SamplePass.both startsWithThrow).
  - exact startsWithThrow_later_inside.
  - vm_compute. reflexivity.
Defined.

(** C2 as the specification states it fails: after a first pass with
    highlighting over [{ throw err; throw new Foo() }], the duplicate
    check of the second pass does not find the comment that the first
    pass attached for [throw err], and the comment is handed to
    [attachComments] again. *)
Lemma C2_duplicate_check_misses_first_pass :
  ~ (forall pluginOptions t t1,
        traverse pluginOptions t t = Ok t1 ->
        traverse pluginOptions t1 t1 = Ok t1
        /\ (forall T rest,
              visited t1 = T :: rest ->
              highlightThrows pluginOptions = true ->
              hasComment t1 (highlightComment T) = true)).
Proof.
  intros H.
  destruct (H SamplePass.highlighting Sample.twoThrows
              (SamplePass.pass SamplePass.highlighting Sample.twoThrows))
    as [_ H2].
  - vm_compute. reflexivity.
  - specialize (H2 _ _ eq_refl eq_refl). vm_compute in H2. discriminate H2.
Qed.


(** ** The node a comment is assigned to *)













(** ** What a pass does to the [comments] of a node *)







(** ** Whether a disallowed throw statement gets its warning *)



Section PlannedPaths.
Variable pluginOptions : PluginOptions.
Variable root : Node.





End PlannedPaths.






(** * Further properties of the code *)

(** ** [isAllowedErrorClass] *)

Lemma existsb_incl {A} (f : A -> bool) (l l' : list A) :
  incl l l' -> existsb f l = true -> existsb f l' = true.
Proof.
  intros Hi H. apply existsb_exists in H as (x & Hx & Hf).
  apply existsb_exists. exists x. split; [now apply Hi|exact Hf].
Qed.

(** X1: adding class names to the list never turns an allowed throw statement
    into a disallowed one. *)
Theorem allowed_list_monotone :
  forall (T : Node) (l l' : list Json),
    incl l l' ->
    isAllowedErrorClass T (Some (JArray l)) = Ok true ->
    isAllowedErrorClass T (Some (JArray l')) = Ok true.
Proof.
  intros T l l' Hi. allowed_cases; try (intros H; exact H);
    try discriminate;
    intros [= H]; f_equal; now apply existsb_incl with (l := l).
Qed.

Lemma allowed_list_monotone_witness :
  isAllowedErrorClass SampleThrows.throwFoo
    (Some (strings ["Bar"; "Foo"]%string))
  = Ok true.
Proof.
  apply (@allowed_list_monotone SampleThrows.throwFoo [JString "Foo"]
           [JString "Bar"; JString "Foo"]).
  - intros x [<-|[]]. right; now left.
  - reflexivity.
Defined.

Lemma strings_differ_Identifier_New (s : string) :
  (s =? "Identifier")%string = true -> (s =? "NewExpression")%string = false.
Proof.
  intros H. apply String.eqb_eq in H. now subst.
Qed.

(** X2: against a list, the classification raises in one situation only: the
    argument is a [new] expression whose [callee] is a truthy primitive;
    the exception is then a [TypeError]. *)
Theorem classification_raises_iff :
  forall (T : Node) (l : list Json) (e : Error),
    isAllowedErrorClass T (Some (JArray l)) = Throw e
    <-> primitiveCallee T = true /\ e = TypeError.
Proof.
  intros T l e. allowed_cases;
    split; try discriminate; try (intros [H _]; discriminate H);
    try (intros [= <-]; auto); try (intros [_ ->]; reflexivity).
Qed.

(** X3: with an empty list of allowed classes, the allowed throw statements
    are exactly those that throw a bare identifier. *)
Theorem empty_list_allows_identifiers_only :
  forall T : Node,
    isAllowedErrorClass T (Some (strings [])) = Ok true
    <-> throwsIdentifier T = true.
Proof.
  intros T. unfold isAllowedErrorClass, throwsIdentifier.
  destruct (lookupField "argument" (children T)) as [arg|];
    [|split; discriminate].
  destruct (type arg =? "Identifier")%string eqn:Ei.
  - rewrite (strings_differ_Identifier_New _ Ei). tauto.
  - split; [|discriminate]. revert Ei. allowed_cases; discriminate.
Qed.

(** ** [traverse] and [hasComment] *)

Lemma processThrow_alreadyAnnotated pluginOptions T ast :
  alreadyAnnotated pluginOptions ast T ->
  processThrow pluginOptions T ast = Ok ast.
Proof.
  intros [Hh He]. unfold processThrow.
  assert (E1 : (if highlightThrows pluginOptions
                then attachUnlessPresent ast (highlightComment T) else ast)
               = ast).
  { destruct (highlightThrows pluginOptions); [|reflexivity].
    unfold attachUnlessPresent. now rewrite (Hh eq_refl). }
  rewrite E1. destruct (enforceAllowedClasses pluginOptions); [|reflexivity].
  destruct (He eq_refl) as [Ha|(str & Ha & Hj & Hw)].
  - now rewrite Ha.
  - rewrite Ha, Hj. cbn. unfold attachUnlessPresent. now rewrite Hw.
Qed.

Lemma visitAll_unchanged pluginOptions ast l :
  (forall T, In T l -> alreadyAnnotated pluginOptions ast T) ->
  visitAll (processThrow pluginOptions) l ast = Ok ast.
Proof.
  induction l as [|T l IH]; intros H; cbn; [reflexivity|].
  rewrite processThrow_alreadyAnnotated by (apply H; now left). cbn.
  apply IH. intros T' HT'. apply H. now right.
Qed.

Lemma annotated_tree_unchanged_helper pluginOptions t :
  (forall T, In T (visited t) -> alreadyAnnotated pluginOptions t T) ->
  traverse pluginOptions t t = Ok t.
Proof.
  intros H. unfold traverse. rewrite traverseWith_visited.
  now apply visitAll_unchanged.
Qed.

(** X6: the duplicate check at work: when the root's comment list already
    holds, on the line before each throw statement, the comments that the
    configuration asks for (as after parsing annotated output again), a
    pass returns the tree exactly as it was given.  A tree whose throw
    statements are all allowed is the case without any comment to find. *)
Theorem annotated_tree_left_unchanged :
  forall pluginOptions t,
    (forall T, In T (visited t) -> alreadyAnnotated pluginOptions t T) ->
    traverse pluginOptions t t = Ok t.
Proof.
  intros po t H. now apply annotated_tree_unchanged_helper.
Qed.

Lemma annotated_tree_witness :
  traverse SamplePass.highlighting SampleReparsed.annotated
    SampleReparsed.annotated
  = Ok SampleReparsed.annotated.
Proof.
  apply annotated_tree_left_unchanged.
  intros T HT. cbn in HT. destruct HT as [<-|[]].
  split; [reflexivity|discriminate].
Defined.

(** X5: with neither highlighting nor enforcement switched on, a call never
    changes the tree: what it returns is the tree it was given.  When it
    raises instead, a textual option did not decode, or the matcher
    refused the path or a pattern of the decoded [include] or
    [exclude]. *)
Theorem flags_off_tree_unchanged :
  forall JSON_parse makeRe ast o P,
    flag (o_highlightThrows o) = false ->
    flag (o_enforceAllowedClasses o) = false ->
    match snd (processThrowStatements JSON_parse makeRe ast o P) with
    | Ok ast' => ast' = ast
    | Throw e =>
        (exists s,
            (o_include o = Text s \/ o_exclude o = Text s
             \/ o_allowedErrorClasses o = Text s)
            /\ JSON_parse s = Throw e)
        \/ (exists v patterns,
               (decode JSON_parse (o_include o) = Ok (v, Some patterns)
                \/ decode JSON_parse (o_exclude o) = Ok (v, Some patterns))
               /\ isMatch makeRe P patterns = Throw e)
    end.
Proof.
  intros * Hh He.
  destruct (decode JSON_parse (o_include o)) as [[v1 inc]|e1] eqn:D1.
  2:{ destruct (decode_error _ _ D1) as (s & E & Ps).
      rewrite (@include_error JSON_parse makeRe ast o P s e1 Ps E).
      left. eauto. }
  destruct (decode JSON_parse (o_exclude o)) as [[v2 exc]|e2] eqn:D2.
  2:{ destruct (decode_error _ _ D2) as (s & E & Ps).
      rewrite (@exclude_error JSON_parse makeRe ast o P s e2 v1 inc Ps D1 E).
      left. eauto. }
  destruct (decode JSON_parse (o_allowedErrorClasses o)) as [[v3 al]|e3] eqn:D3.
  2:{ destruct (decode_error _ _ D3) as (s & E & Ps).
      rewrite (@allowedErrorClasses_error JSON_parse makeRe ast o P s e3
                 v1 inc v2 exc Ps D1 D2 E).
      left. eauto 6. }
  rewrite (process_decoded JSON_parse makeRe ast o P D1 D2 D3).
  cbn zeta. cbn [snd]. rewrite Hh, He. rewrite <- D1, <- D2.
  unfold guard, shouldInclude, shouldExclude. cbn [include exclude].
  set (k := fun skip : bool =>
              if skip then Ok ast
              else traverse (mkPluginOptions false al false inc exc) ast ast).
  assert (Hk : forall skip, k skip = Ok ast).
  { intros [|]; [reflexivity|]. apply annotated_tree_unchanged_helper.
    intros T _. split; discriminate. }
  assert (Hinc : forall r : Result bool,
             (forall e, r = Throw e ->
                exists v patterns,
                  (decode JSON_parse (o_include o) = Ok (v, Some patterns)
                   \/ decode JSON_parse (o_exclude o)
                      = Ok (v, Some patterns))
                  /\ isMatch makeRe P patterns = Throw e) ->
             match (skip <- r ;; k skip) with
             | Ok ast' => ast' = ast
             | Throw e =>
                 (exists s,
                     (o_include o = Text s \/ o_exclude o = Text s
                      \/ o_allowedErrorClasses o = Text s)
                     /\ JSON_parse s = Throw e)
                 \/ (exists v patterns,
                        (decode JSON_parse (o_include o)
                         = Ok (v, Some patterns)
                         \/ decode JSON_parse (o_exclude o)
                            = Ok (v, Some patterns))
                        /\ isMatch makeRe P patterns = Throw e)
             end).
  { intros [b|e] Hr; cbn; [now rewrite Hk|]. right. now apply Hr. }
  apply Hinc. intros e.
  assert (Hx : forall i,
             (x <- match exc with
                   | Some patterns =>
                       if truthyJson patterns
                       then isMatch makeRe P patterns else Ok false
                   | None => Ok false
                   end ;; Ok (negb i || x)) = Throw e ->
             exists v patterns,
               (decode JSON_parse (o_include o) = Ok (v, Some patterns)
                \/ decode JSON_parse (o_exclude o) = Ok (v, Some patterns))
               /\ isMatch makeRe P patterns = Throw e).
  { intros i. destruct exc as [patterns|]; [|discriminate].
    destruct (truthyJson patterns); [|discriminate].
    destruct (isMatch makeRe P patterns) as [x|e'] eqn:M; [discriminate|].
    intros [= <-]. exists v2, patterns. auto. }
  destruct inc as [patterns|]; [|apply Hx].
  destruct (truthyJson patterns); [|apply Hx].
  destruct (isMatch makeRe P patterns) as [i|e'] eqn:M; [apply Hx|].
  intros [= <-]. exists v1, patterns. auto.
Qed.

Lemma flags_off_witness :
  snd (processThrowStatements Sample.parseKnown Sample.exact Sample.twoThrows
         (mkOptions None (Items []) (Some false) (Items ["a.ts"%string])
            (Items []))
         (Some "a.ts"%string)) = Ok Sample.twoThrows.
Proof.
  generalize (@flags_off_tree_unchanged Sample.parseKnown Sample.exact
                Sample.twoThrows
                (mkOptions None (Items []) (Some false)
                   (Items ["a.ts"%string]) (Items []))
                (Some "a.ts"%string) eq_refl eq_refl).
  destruct (snd _) as [ast'|e] eqn:E.
  - intros ->. reflexivity.
  - vm_compute in E. discriminate E.
Defined.




Lemma processThrow_undefined_list pluginOptions T ast :
  enforceAllowedClasses pluginOptions = true ->
  allowedErrorClasses pluginOptions = None ->
  (throwsIdentifier T = true ->
   exists ast', processThrow pluginOptions T ast = Ok ast')
  /\ (throwsIdentifier T = false ->
      processThrow pluginOptions T ast = Throw TypeError).
Proof.
  intros He Ha. unfold processThrow. rewrite He, Ha.
  unfold throwsIdentifier, isAllowedErrorClass, includes, join.
  destruct (lookupField "argument" (children T)) as [arg|]; cbn;
    [|split; [discriminate|reflexivity]].
  destruct (type arg =? "Identifier")%string eqn:Ei.
  - rewrite (strings_differ_Identifier_New _ Ei). cbn.
    split; [eauto|discriminate].
  - split; [discriminate|]. intros _.
    repeat (match goal with
            | |- context [match lookupField ?k ?l with _ => _ end] =>
                destruct (lookupField k l)
            | |- context [match lookupAttr ?k ?l with _ => _ end] =>
                destruct (lookupAttr k l) as [[| |?|?|?]|]
            | |- context [hasKey ?k ?n] => destruct (hasKey k n)
            | |- context [if ?b then _ else _] => destruct b
            end; cbn); reflexivity.
Qed.

(** X4: enforcement with an [allowedErrorClasses] that is [undefined]: the pass
    raises a [TypeError] exactly when the tree has a throw statement that
    throws something else than a bare identifier. *)
Theorem undefined_list_raises_iff :
  forall pluginOptions t ast,
    enforceAllowedClasses pluginOptions = true ->
    allowedErrorClasses pluginOptions = None ->
    (traverse pluginOptions t ast = Throw TypeError
     <-> exists T, In T (visited t) /\ throwsIdentifier T = false)
    /\ ((forall T, In T (visited t) -> throwsIdentifier T = true) ->
        exists t1, traverse pluginOptions t ast = Ok t1).
Proof.
  intros po t ast He Ha. unfold traverse. rewrite traverseWith_visited.
  generalize (visited t) as ts. intros ts. revert ast.
  induction ts as [|T ts IH]; intros ast; cbn.
  - split; [|eauto]. split; [discriminate|]. intros (T & [] & _).
  - destruct (@processThrow_undefined_list po T ast He Ha) as [Hid Hno].
    destruct (throwsIdentifier T) eqn:Et.
    + destruct (Hid eq_refl) as [ast' ->]. cbn.
      destruct (IH ast') as [IH1 IH2]. split.
      * rewrite IH1. split.
        -- intros (T' & HT' & E). exists T'. auto.
        -- intros (T' & [<-|HT'] & E); [congruence|eauto].
      * intros H. apply IH2. intros T' HT'. apply H. now right.
    + rewrite (Hno eq_refl). cbn. split.
      * split; [|reflexivity]. intros _. exists T. auto.
      * intros H. specialize (H T (or_introl eq_refl)). congruence.
Qed.

Lemma undefined_list_witness :
  traverse SampleReparsed.enforcingUndefined Sample.twoThrows
    Sample.twoThrows = Throw TypeError.
Proof.
  apply (@undefined_list_raises_iff SampleReparsed.enforcingUndefined
           Sample.twoThrows Sample.twoThrows eq_refl eq_refl).
  exists SampleThrows.throwFoo. split; [|reflexivity].
  cbn. right. now left.
Defined.

(** ** Where the comments of the returned tree come from *)

Lemma flat_map_updateNth_In {A B} (f : A -> list B) (g : A -> A) c l :
  forall i,
    In c (flat_map f (updateNth i g l)) ->
    (exists x, nth_error l i = Some x /\ In c (f (g x)))
    \/ In c (flat_map f l).
Proof.
  induction l as [|x l IH]; intros [|i]; cbn; try tauto.
  - rewrite !in_app_iff. intros [H|H]; [left; eauto|right; now right].
  - rewrite !in_app_iff. intros [H|H]; [right; now left|].
    destruct (IH i H) as [(y & Hy & Hc)|Hc]; [left; eauto|right; now right].
Qed.

Lemma allComments_setComments c v p : forall node,
  In c (allComments (setComments p v node)) ->
  In c v \/ In c (allComments node).
Proof.
  induction p as [|i p IH]; intros [ty lc rg cm at_ kids]; cbn;
    rewrite !in_app_iff.
  - intros [H|H]; [now left|right; now right].
  - intros [H|H]; [right; now left|].
    apply flat_map_updateNth_In in H as [([s child] & Hn & H)|H].
    + cbn in H. destruct (IH child H) as [Hv|Hc]; [now left|].
      right. right. apply in_flat_map. exists (s, child).
      split; [now apply nth_error_In with (n := i)|exact Hc].
    + right. now right.
Qed.

Lemma allComments_attachUnlessPresent c ast comment :
  In c (allComments (attachUnlessPresent ast comment)) ->
  (exists fl, c = withFields comment fl) \/ In c (allComments ast).
Proof.
  unfold attachUnlessPresent, attachComments.
  destruct (hasComment ast comment); [now right|].
  destruct (walk comment ast) as [[p fl]|]; [|now right].
  intros H. apply allComments_setComments in H as [[<-|[]]|H]; eauto.
Qed.

Lemma allComments_processThrow pluginOptions T ast ast' c :
  processThrow pluginOptions T ast = Ok ast' ->
  In c (allComments ast') ->
  In c (allComments ast) \/ synthesizedAt pluginOptions T c.
Proof.
  unfold processThrow.
  set (ast1 := if highlightThrows pluginOptions
               then attachUnlessPresent ast (highlightComment T) else ast).
  assert (H1 : In c (allComments ast1) ->
               In c (allComments ast)
               \/ exists fl, highlightThrows pluginOptions = true
                             /\ c = withFields (highlightComment T) fl).
  { subst ast1. destruct (highlightThrows pluginOptions); [|now left].
    intros H. apply allComments_attachUnlessPresent in H as [[fl ->]|H];
      eauto. }
  assert (H1' : In c (allComments ast1) ->
                In c (allComments ast)
                \/ synthesizedAt pluginOptions T c).
  { intros H. destruct (H1 H) as [|(fl & Hh & ->)]; [now left|].
    right. exists fl. now left. }
  clearbody ast1. clear H1.
  destruct (enforceAllowedClasses pluginOptions) eqn:He.
  - destruct (isAllowedErrorClass T (allowedErrorClasses pluginOptions))
      as [[|]|] eqn:Hd; cbn; try discriminate.
    + intros [= <-]. exact H1'.
    + destruct (join (allowedErrorClasses pluginOptions)) as [str|] eqn:Hj;
        cbn; [|discriminate].
      intros [= <-] H.
      apply allComments_attachUnlessPresent in H as [[fl ->]|H]; auto.
      right. exists fl. right. split; [exact He|]. exists str. auto.
  - intros [= <-]. exact H1'.
Qed.

(** X8: a pass invents nothing else: every comment held by a node of the
    returned tree was held by a node of the tree the pass started from, or
    is a copy, with [leading] and [trailing] set, of the highlight comment
    or of the warning comment of a throw statement that the walk reached,
    and then the corresponding option is switched on. *)
Theorem pass_attaches_synthesized_comments_only :
  forall pluginOptions t ast t1 c,
    traverse pluginOptions t ast = Ok t1 ->
    In c (allComments t1) ->
    In c (allComments ast)
    \/ exists T, In T (visited t) /\ synthesizedAt pluginOptions T c.
Proof.
  intros po t ast t1 c. unfold traverse. rewrite traverseWith_visited.
  generalize (visited t) as ts. intros ts. revert ast.
  induction ts as [|T ts IH]; intros ast; cbn.
  - intros [= <-]. now left.
  - destruct (processThrow po T ast) as [ast'|] eqn:E; cbn; [|discriminate].
    intros H Hc. destruct (IH ast' H Hc) as [Hin|(T' & HT' & Hs)].
    + destruct (@allComments_processThrow po T ast ast' c E Hin) as [|Hs];
        [now left|].
      right. exists T. split; [now left|exact Hs].
    + right. exists T'. split; [now right|exact Hs].
Qed.

Lemma pass_attaches_witness :
  In (withFields (highlightComment SampleThrows.throwFoo) (true, false))
     (allComments Sample.twoThrows)
  \/ exists T,
       In T (visited Sample.twoThrows)
       /\ synthesizedAt SamplePass.highlighting T
            (withFields (highlightComment SampleThrows.throwFoo)
               (true, false)).
Proof.
  apply (@pass_attaches_synthesized_comments_only SamplePass.highlighting
           Sample.twoThrows Sample.twoThrows
           (SamplePass.pass SamplePass.highlighting Sample.twoThrows)).
  - vm_compute. reflexivity.
  - vm_compute. right. left. reflexivity.
Defined.

(** ** The options object across calls *)




(** X10: a failure leaves the earlier work in the caller's object: when
    [exclude] fails to decode, a textual [include] has already been
    replaced by its value, and when [allowedErrorClasses] fails, textual
    [include] and [exclude] have both been replaced; the call raises the
    exception of the option that failed. *)
Theorem decode_failure_keeps_earlier_replacements :
  forall JSON_parse makeRe ast o P s1 j1 s e,
    o_include o = Text s1 ->
    JSON_parse s1 = Ok j1 ->
    JSON_parse s = Throw e ->
    (o_exclude o = Text s ->
     processThrowStatements JSON_parse makeRe ast o P
     = (setInclude (Value j1) o, Throw e))
    /\ (forall s2 j2,
          o_exclude o = Text s2 ->
          JSON_parse s2 = Ok j2 ->
          o_allowedErrorClasses o = Text s ->
          processThrowStatements JSON_parse makeRe ast o P
          = (setExclude (Value j2) (setInclude (Value j1) o), Throw e)).
Proof.
  intros * Hi H1 He.
  assert (D1 : decode JSON_parse (o_include o) = Ok (Value j1, Some j1))
    by now rewrite Hi, decode_text, H1.
  split.
  - intros Hx. now apply exclude_error with (s := s) (inc := Some j1).
  - intros s2 j2 Hx H2 Ha.
    assert (D2 : decode JSON_parse (o_exclude o) = Ok (Value j2, Some j2))
      by now rewrite Hx, decode_text, H2.
    now apply allowedErrorClasses_error
      with (s := s) (inc := Some j1) (exc := Some j2).
Qed.

Lemma decode_failure_witness :
  processThrowStatements Sample.parseKnown Sample.exact Sample.twoThrows
    (mkOptions None (Text "[]") None (Text Sample.textAB) (Text "oops"))
    (Some "a.ts"%string)
  = (mkOptions None (Text "[]") None (Items ["A"; "B"]%string)
       (Text "oops"),
     Throw SyntaxError).
Proof.
  apply (@decode_failure_keeps_earlier_replacements Sample.parseKnown
           Sample.exact Sample.twoThrows
           (mkOptions None (Text "[]") None (Text Sample.textAB)
              (Text "oops"))
           (Some "a.ts"%string) Sample.textAB (strings ["A"; "B"]%string)
           "oops"%string SyntaxError); reflexivity.
Defined.

(** ** The filter on options that are [undefined] *)

(** X11: an [include] that is [undefined] lets every path through, unlike the
    empty list: with nothing to exclude, the annotator then runs for every
    path.  Likewise an [exclude] that is [undefined] excludes nothing: the
    annotator runs exactly for the paths that some [include] pattern
    matches. *)
Theorem undefined_patterns_filter_nothing :
  forall JSON_parse makeRe ast o P v3 al,
    decode JSON_parse (o_allowedErrorClasses o) = Ok (v3, al) ->
    (o_include o = Undefined ->
     o_exclude o = Undefined \/ o_exclude o = Absent
     \/ o_exclude o = Items [] ->
     exists exc,
       snd (processThrowStatements JSON_parse makeRe ast o P)
       = traverse (mkPluginOptions (flag (o_highlightThrows o)) al
                     (flag (o_enforceAllowedClasses o)) None exc)
           ast ast)
    /\ (forall I,
          o_include o = Items I ->
          o_exclude o = Undefined ->
          snd (processThrowStatements JSON_parse makeRe ast o P)
          = (included <- isMatch makeRe P (strings I) ;;
             if included
             then traverse (mkPluginOptions (flag (o_highlightThrows o)) al
                              (flag (o_enforceAllowedClasses o))
                              (Some (strings I)) None)
                    ast ast
             else Ok ast)).
Proof.
  intros * D3. split.
  - intros Hi Hx.
    assert (D1 : decode JSON_parse (o_include o) = Ok (Undefined, None))
      by now rewrite Hi.
    destruct Hx as [Hx|[Hx|Hx]].
    + assert (D2 : decode JSON_parse (o_exclude o) = Ok (Undefined, None))
        by now rewrite Hx.
      exists None.
      now rewrite (process_decoded JSON_parse makeRe ast o P D1 D2 D3).
    + assert (D2 : decode JSON_parse (o_exclude o)
                   = Ok (Absent, Some (strings [])))
        by now rewrite Hx.
      exists (Some (strings [])).
      now rewrite (process_decoded JSON_parse makeRe ast o P D1 D2 D3).
    + assert (D2 : decode JSON_parse (o_exclude o)
                   = Ok (Items [], Some (strings [])))
        by now rewrite Hx.
      exists (Some (strings [])).
      now rewrite (process_decoded JSON_parse makeRe ast o P D1 D2 D3).
  - intros I Hi Hx.
    assert (D1 : decode JSON_parse (o_include o)
                 = Ok (Items I, Some (strings I)))
      by now rewrite Hi.
    assert (D2 : decode JSON_parse (o_exclude o) = Ok (Undefined, None))
      by now rewrite Hx.
    rewrite (process_decoded JSON_parse makeRe ast o P D1 D2 D3).
    cbn zeta. cbn [snd]. unfold guard, shouldInclude, shouldExclude.
    cbn [include exclude truthyJson strings].
    change (JArray (map JString I)) with (strings I).
    destruct (isMatch makeRe P (strings I)) as [[|]|]; reflexivity.
Qed.

Lemma undefined_patterns_witness :
  exists exc,
    snd (processThrowStatements Sample.parseKnown Sample.exact
           Sample.twoThrows
           (mkOptions (Some true) (Items []) None Undefined Absent)
           (Some "anything.js"%string))
    = traverse (mkPluginOptions true (Some (strings [])) false None exc)
        Sample.twoThrows Sample.twoThrows.
Proof.
  apply (@undefined_patterns_filter_nothing Sample.parseKnown Sample.exact
           Sample.twoThrows
           (mkOptions (Some true) (Items []) None Undefined Absent)
           (Some "anything.js"%string) (Items []) (Some (strings []))
           eq_refl).
  - reflexivity.
  - right; left; reflexivity.
Defined.

(** ** The wrapped parsers *)

Lemma strip_processThrowStatements JSON_parse makeRe ast o P ast' :
  snd (processThrowStatements JSON_parse makeRe ast o P) = Ok ast' ->
  strip ast' = strip ast.
Proof.
  intros H.
  destruct (process_returns _ _ _ _ _ H)
    as (v1 & inc & v2 & exc & v3 & al & _ & _ & _ & [[_ ->]|[_ Ht]]).
  - reflexivity.
  - eapply strip_traverse. exact Ht.
Qed.

Section WrappedParsers.
Variable JSON_parse : string -> Result Json.
Variable makeRe : Json -> Result (string -> bool).
Variables Other Rest : Type.

(** X13: what a wrapped [parse] does.  An exception of the original parser is
    passed on, with the options object untouched.  When the original
    parser returns a tree but [options] is [undefined], the call raises a
    [TypeError]: [options.filepath] is read although [options ?? {}]
    guards the options passed on.  And a call that returns a tree returns
    the tree of the original parser up to [comments] properties, leaving
    [filepath] and the host's own options in the options object as they
    were. *)
Theorem wrapped_parse_behaviour :
  forall (p : Parser Other Rest (Result Node)) text options,
    (forall e, parse p text options = Throw e ->
               wrappedParse JSON_parse makeRe p text options
               = (options, Throw e))
    /\ (forall ast, options = None -> parse p text None = Ok ast ->
                    wrappedParse JSON_parse makeRe p text options
                    = (None, Throw TypeError))
    /\ (forall o' ast',
          wrappedParse JSON_parse makeRe p text options = (o', Ok ast') ->
          exists ast o o1,
            options = Some o /\ o' = Some o1
            /\ parse p text options = Ok ast
            /\ strip ast' = strip ast
            /\ filepath o1 = filepath o
            /\ otherOptions o1 = otherOptions o).
Proof.
  intros p text options. unfold wrappedParse. split; [|split].
  - intros e ->. reflexivity.
  - intros ast -> ->. reflexivity.
  - intros o' ast'.
    destruct (parse p text options) as [ast|e]; [|discriminate].
    destruct options as [o|]; [|discriminate].
    intros [= <- H]. exists ast, o. eexists. repeat split.
    eapply strip_processThrowStatements. exact H.
Qed.

End WrappedParsers.

Lemma wrapped_parse_witness :
  wrappedParse Sample.parseKnown Sample.exact SampleHost.original
    "syntax error" None = (None, Throw SyntaxError)
  /\ wrappedParse Sample.parseKnown Sample.exact SampleHost.original
       "throws" None = (None, Throw TypeError)
  /\ exists ast o o1,
      Some (SampleHost.hostOptions
              (mkOptions (Some true) (Items []) None Undefined Absent))
      = Some o
      /\ Some (SampleHost.hostOptions
                 (mkOptions (Some true) (Items []) None Undefined Absent))
         = Some o1
      /\ parse SampleHost.original "throws"
           (Some (SampleHost.hostOptions
                    (mkOptions (Some true) (Items []) None Undefined
                       Absent)))
         = Ok ast
      /\ strip (SamplePass.pass SamplePass.highlighting Sample.twoThrows)
         = strip ast
      /\ filepath o1 = filepath o
      /\ otherOptions o1 = otherOptions o.
Proof.
  destruct (@wrapped_parse_behaviour Sample.parseKnown Sample.exact unit unit
              SampleHost.original "syntax error"%string None) as (H1 & _).
  destruct (@wrapped_parse_behaviour Sample.parseKnown Sample.exact unit unit
              SampleHost.original "throws"%string None) as (_ & H2 & _).
  destruct (@wrapped_parse_behaviour Sample.parseKnown Sample.exact unit unit
              SampleHost.original "throws"%string
              (Some (SampleHost.hostOptions
                       (mkOptions (Some true) (Items []) None Undefined
                          Absent)))) as (_ & _ & H3).
  split; [apply H1; reflexivity|].
  split; [apply (H2 Sample.twoThrows); reflexivity|].
  apply H3. vm_compute. reflexivity.
Defined.

(** ** The defaults of the option schema *)

Lemma schemaDefaults_eq :
  schemaDefaults
  = mkOptions (Some false) (Text "[]") (Some true) (Text includeDefault)
      (Text "[]").
Proof. reflexivity. Qed.

Lemma isAllowedErrorClass_empty_list T :
  primitiveCallee T = false ->
  isAllowedErrorClass T (Some (strings [])) = Ok (throwsIdentifier T).
Proof.
  unfold isAllowedErrorClass, throwsIdentifier, primitiveCallee.
  destruct (lookupField "argument" (children T)) as [arg|]; [|reflexivity].
  destruct (type arg =? "Identifier")%string eqn:Ei.
  - now rewrite (strings_differ_Identifier_New _ Ei).
  - destruct (type arg =? "NewExpression")%string; [|reflexivity]. cbn.
    repeat (match goal with
            | |- context [match lookupField ?k ?l with _ => _ end] =>
                destruct (lookupField k l)
            | |- context [match lookupAttr ?k ?l with _ => _ end] =>
                destruct (lookupAttr k l) as [[| |?|?|?]|]
            | |- context [hasKey ?k ?n] => destruct (hasKey k n)
            | |- context [if ?b then _ else _] => destruct b
            end; cbn); try reflexivity; discriminate.
Qed.

(** The two default patterns on a path, when both compile. *)
Lemma isMatch_default_patterns makeRe P r1 r2 :
  makeRe (JString "**/*.ts") = Ok r1 ->
  makeRe (JString "**/*.tsx") = Ok r2 ->
  isMatch makeRe P (strings ["**/*.ts"; "**/*.tsx"]%string)
  = match P with
    | None => Throw TypeError
    | Some path =>
        Ok (negb (path =? "")%string && (r1 path || r2 path))
    end.
Proof.
  intros H1 H2. unfold isMatch. cbn. rewrite H1, H2. cbn.
  destruct P as [path|]; [|reflexivity]. cbn.
  destruct (path =? "")%string; [reflexivity|]. cbn.
  destruct (r1 path); [reflexivity|]. cbn. now destruct (r2 path).
Qed.

(** X14: what the plugin does when nothing is configured and the options hold
    the defaults of the schema, for a [JSON.parse] that decodes the two
    default texts: a file is processed exactly when it matches one of the
    two TypeScript patterns, which for two patterns that compile means a
    path that is not empty and that one of them accepts, a missing path
    being refused; no highlight comment is attached; a throw statement
    that throws a bare identifier is left alone; every other throw
    statement is handed the warning comment, whose list of classes is
    empty. *)
Theorem schema_defaults_flag_every_constructed_throw :
  forall JSON_parse makeRe ast P,
    JSON_parse "[]"%string = Ok (strings []) ->
    JSON_parse includeDefault = Ok (strings ["**/*.ts"; "**/*.tsx"]%string) ->
    let po := mkPluginOptions false (Some (strings [])) true
                (Some (strings ["**/*.ts"; "**/*.tsx"]%string))
                (Some (strings [])) in
    snd (processThrowStatements JSON_parse makeRe ast schemaDefaults P)
    = (included <- isMatch makeRe P
                     (strings ["**/*.ts"; "**/*.tsx"]%string) ;;
       if included then traverse po ast ast else Ok ast)
    /\ (forall r1 r2,
          makeRe (JString "**/*.ts") = Ok r1 ->
          makeRe (JString "**/*.tsx") = Ok r2 ->
          snd (processThrowStatements JSON_parse makeRe ast schemaDefaults P)
          = match P with
            | None => Throw TypeError
            | Some path =>
                if negb (path =? "")%string && (r1 path || r2 path)
                then traverse po ast ast else Ok ast
            end)
    /\ (forall T a, throwsIdentifier T = true -> processThrow po T a = Ok a)
    /\ (forall T a,
          throwsIdentifier T = false -> primitiveCallee T = false ->
          processThrow po T a
          = Ok (attachUnlessPresent a (warningComment "" T))
          /\ c_value (warningComment "" T)
             = " WARNING: Only throw instances of:  "%string).
Proof.
  intros JSON_parse makeRe ast P Hempty Hinclude po.
  assert (H0 : snd (processThrowStatements JSON_parse makeRe ast
                      schemaDefaults P)
               = (included <- isMatch makeRe P
                                (strings ["**/*.ts"; "**/*.tsx"]%string) ;;
                  if included then traverse po ast ast else Ok ast)).
  { rewrite schemaDefaults_eq.
    rewrite (@process_decoded JSON_parse makeRe ast _ P
               (Items ["**/*.ts"; "**/*.tsx"]%string)
               (Some (strings ["**/*.ts"; "**/*.tsx"]%string))
               (Items []) (Some (strings [])) (Items []) (Some (strings [])));
      cbn [o_include o_exclude o_allowedErrorClasses];
      try (rewrite decode_text, ?Hempty, ?Hinclude; reflexivity).
    cbn zeta. cbn [snd]. unfold guard, shouldInclude, shouldExclude.
    cbn [include exclude truthyJson strings map].
    change (JArray [JString "**/*.ts"; JString "**/*.tsx"])
      with (strings ["**/*.ts"; "**/*.tsx"]%string).
    change (JArray []) with (strings []). rewrite isMatch_empty.
    destruct (isMatch makeRe P _) as [[|]|]; reflexivity. }
  split; [exact H0|]. split; [|split].
  - intros r1 r2 H1 H2. rewrite H0.
    rewrite (isMatch_default_patterns makeRe P H1 H2).
    destruct P as [path|]; reflexivity.
  - intros T a Hid. unfold processThrow. cbn.
    assert (Hp : primitiveCallee T = false).
    { revert Hid. unfold throwsIdentifier, primitiveCallee.
      destruct (lookupField "argument" (children T)) as [arg|];
        [|reflexivity].
      intros Hid. now rewrite (strings_differ_Identifier_New _ Hid). }
    change (JArray []) with (strings []).
    now rewrite (isAllowedErrorClass_empty_list T Hp), Hid.
  - intros T a Hid Hp. split; [|reflexivity]. unfold processThrow. cbn.
    change (JArray []) with (strings []).
    now rewrite (isAllowedErrorClass_empty_list T Hp), Hid.
Qed.

Lemma schema_defaults_witness :
  snd (processThrowStatements SampleHost.parseDefaults SampleHost.bySuffix
         Sample.twoThrows schemaDefaults (Some "a.ts"%string))
  = traverse
      (mkPluginOptions false (Some (strings [])) true
         (Some (strings ["**/*.ts"; "**/*.tsx"]%string)) (Some (strings [])))
      Sample.twoThrows Sample.twoThrows.
Proof.
  destruct (@schema_defaults_flag_every_constructed_throw
              SampleHost.parseDefaults SampleHost.bySuffix Sample.twoThrows
              (Some "a.ts"%string) eq_refl eq_refl) as (_ & H & _).
  exact (H _ _ eq_refl eq_refl).
Defined.

(** ** An [allowedErrorClasses] that is a string *)

(** X15: when [allowedErrorClasses] holds a string, as it does after a text
    such as the name Foo in quotes was decoded, [includes] is the
    substring test of strings: [throw new <name>(...)] is allowed exactly
    when the name occurs somewhere in that string.  A throw statement
    that is not allowed then makes the pass raise a [TypeError], because
    a string has no [join]. *)
Theorem string_of_classes_allows_substrings :
  forall (node arg callee : Node) (name s : string),
    lookupField "argument" (children node) = Some arg ->
    type arg = "NewExpression"%string ->
    lookupAttr "callee" (attrs arg) = None ->
    lookupField "callee" (children arg) = Some callee ->
    lookupAttr "name" (attrs callee) = Some (PStr name) ->
    name <> ""%string ->
    isAllowedErrorClass node (Some (JString s)) = Ok (isSubstring name s)
    /\ forall pluginOptions ast,
        enforceAllowedClasses pluginOptions = true ->
        allowedErrorClasses pluginOptions = Some (JString s) ->
        processThrow pluginOptions node ast
        = if isSubstring name s
          then Ok (if highlightThrows pluginOptions
                   then attachUnlessPresent ast (highlightComment node)
                   else ast)
          else Throw TypeError.
Proof.
  intros node arg callee name s Harg Hty Hprim Hcallee Hname Hne.
  assert (H : isAllowedErrorClass node (Some (JString s))
              = Ok (isSubstring name s)).
  { now rewrite (@isAllowedErrorClass_new node (Some (JString s)) arg
                   callee name Harg Hty Hprim Hcallee Hname Hne). }
  split; [exact H|].
  intros po ast He Ha. unfold processThrow. rewrite He, Ha, H. cbn.
  now destruct (isSubstring name s).
Qed.

Lemma string_of_classes_witness :
  isAllowedErrorClass SampleThrows.throwFoo (Some (JString "FooBar"))
  = Ok true
  /\ processThrow
       (mkPluginOptions false (Some (JString "Bar")) true None None)
       SampleThrows.throwFoo Sample.twoThrows
     = Throw TypeError.
Proof.
  split.
  - apply (@string_of_classes_allows_substrings SampleThrows.throwFoo
             (Sample.newExpression "Foo" (23, 32) 4)
             (Sample.identifier "Foo" (27, 30) 4) "Foo" "FooBar");
      try reflexivity; discriminate.
  - apply (@string_of_classes_allows_substrings SampleThrows.throwFoo
             (Sample.newExpression "Foo" (23, 32) 4)
             (Sample.identifier "Foo" (27, 30) 4) "Foo" "Bar");
      try reflexivity; discriminate.
Defined.
